(** * PlasmaPy: the Stix cold-plasma solver and the Hellinger timescales

    A shallow embedding of

    - [plasmapy/dispersion/numerical/stix_.py]   (function [stix])
    - [plasmapy/formulary/collisions/timescales.py]
      (class [validate], [Hellinger], [Hellinger_2009], [Hellinger_2010],
      [Hellinger_2016])

    Conventions of the embedding.

    - Floating-point numbers are read as real numbers ([R]); a complex root
      is a pair of reals.  Every statement below is therefore about the
      exact arithmetic the code approximates.
    - A Python function that may raise is a function into [result], the
      error monad over the exceptions the two modules raise.
    - The collaborators that are imported from elsewhere
      ([plasma_frequency], [gyrofrequency], [Coulomb_logarithm], the
      hypergeometric functions, LAPACK's eigenvalue routine behind
      [numpy.roots]) are section variables: nothing is assumed about the
      numbers they return.
    - The decorator [validate_quantities] (unit conversion and the
      [can_be_negative] test) runs before the bodies embedded here and is
      not part of the embedding. *)

From Stdlib Require Import Reals Lra Lia List ZArith Bool Sorted Permutation.
From Stdlib Require Strings.String.
Import ListNotations String.StringSyntax.
Open Scope string_scope.
Open Scope R_scope.

(** ** Python exceptions and the error monad *)

Module Py.

(** What a raise site complains about.  The first four are the error
    classes of the input contract; the others are raised by the Python
    run time or by astropy. *)
Inductive reason : Type :=
| InvalidSpecies      (* "must be a (positively) charged ion", "can only take 2 inputs" *)
| Shape               (* "must be single valued", "need to be the same length", ... *)
| Sign                (* "must be a positive argument", "can not ... have negative value" *)
| WrongType           (* "must be an astropy.units.Quantity", "type of str is required" *)
| ZeroTemperature     (* "Argument 'T_par' must be a non zero value" *)
| IsinstanceArg2      (* isinstance() arg 2 must be a type, a tuple of types, or a union *)
| ScalarIndex         (* 'Quantity' object with a scalar value does not support indexing *)
| ScalarLen           (* 'Quantity' object with a scalar value has no len() *)
| MissingArgument.    (* missing 1 required positional argument *)

Inductive exn : Type :=
| ValueError (why : reason)
| TypeError (why : reason)
| IndexError
| UnboundLocalError (name : String.string).

Definition result (A : Type) : Type := (exn + A)%type.

Definition ret {A} (x : A) : result A := inr x.
Definition raise {A} (e : exn) : result A := inl e.
Definition bind {A B} (m : result A) (f : A -> result B) : result B :=
  match m with
  | inl e => inl e
  | inr x => f x
  end.

Definition raises {A} (m : result A) : Prop := exists e, m = inl e.

(** The error classes of the input contract. *)
Definition is_invalid_species_error (e : exn) : bool :=
  match e with ValueError InvalidSpecies => true | _ => false end.

Definition is_shape_error (e : exn) : bool :=
  match e with
  | ValueError Shape | TypeError Shape => true
  | _ => false
  end.

(** The Python objects that reach the [method] argument. *)
Inductive pytype : Type := Tstr | TNoneType | Tint | Tfloat.

Inductive pyobj : Type :=
| PNone
| PStr (s : String.string)
| PInt (z : Z)
| PFloat (r : R)
| PType (t : pytype).

Definition type_of (x : pyobj) : option pytype :=
  match x with
  | PNone => Some TNoneType
  | PStr _ => Some Tstr
  | PInt _ => Some Tint
  | PFloat _ => Some Tfloat
  | PType _ => None
  end.

Definition pytype_eqb (a b : pytype) : bool :=
  match a, b with
  | Tstr, Tstr | TNoneType, TNoneType | Tint, Tint | Tfloat, Tfloat => true
  | _, _ => false
  end.

(** The builtin [isinstance(x, cls)]: its second argument has to be a
    type (or a tuple of types); anything else, [None] included, is a
    [TypeError] whatever [x] is. *)
Definition isinstance (x cls : pyobj) : result bool :=
  match cls with
  | PType t =>
      ret (match type_of x with Some t' => pytype_eqb t' t | None => false end)
  | _ => raise (TypeError IsinstanceArg2)
  end.

End Py.

Import Py.

Notation "x <- m ;; k" := (bind m (fun x => k))
  (at level 61, m at next level, right associativity).

(** ** numpy arrays *)

Module np.

(** An array is its shape and its elements in row-major order. *)
Record ndarray : Type := mk_ndarray { shape : list nat; data : list R }.

Definition ndim (a : ndarray) : nat := length (shape a).
Definition size (a : ndarray) : nat := fold_right Nat.mul 1%nat (shape a).
Definition well_formed (a : ndarray) : Prop := length (data a) = size a.

(** [a.squeeze()]: the axes of length one are dropped. *)
Definition squeeze (a : ndarray) : ndarray :=
  mk_ndarray (filter (fun d => negb (d =? 1)%nat) (shape a)) (data a).

(** A zero-dimensional array and a one-dimensional one. *)
Definition scalar (x : R) : ndarray := mk_ndarray [] [x].
Definition array (l : list R) : ndarray := mk_ndarray [length l] l.

(** The value of a zero-dimensional array. *)
Definition item (a : ndarray) : R := hd 0 (data a).

(** [np.repeat(a, n)] on a flat array: every element [n] times. *)
Definition repeat_each (l : list R) (n : nat) : list R :=
  flat_map (fun x => repeat x n) l.

Definition sum (l : list R) : R := fold_right Rplus 0 l.

(** Complex numbers, as numpy prints them: real part, imaginary part. *)
Definition complex : Type := (R * R)%type.

Definition is_zero (x : R) : bool := if Req_dec_T x 0 then true else false.

(** [np.nonzero(p)[0]]: the positions of the non-zero entries. *)
Fixpoint nonzero_from (i : nat) (p : list R) : list nat :=
  match p with
  | [] => []
  | x :: t => if is_zero x then nonzero_from (S i) t else i :: nonzero_from (S i) t
  end.
Definition nonzero (p : list R) : list nat := nonzero_from 0 p.

(** The slice [p[i:j]]. *)
Definition slice (p : list R) (i j : nat) : list R := firstn (j - i) (skipn i p).

Section Roots.

(** [eig row i] is the [i]-th eigenvalue LAPACK reports for the
    companion matrix whose first row is [row] (the rest of the matrix
    is the fixed sub-diagonal of ones).  [numpy.linalg.eigvals]
    returns one eigenvalue per row of the matrix. *)
Variable eig : list R -> nat -> complex.

Definition eigvals (row : list R) : list complex :=
  map (eig row) (seq 0 (length row)).

(** [numpy.roots(p)], as numpy defines it: leading and trailing zero
    coefficients are stripped, the eigenvalues of the companion matrix
    of what is left are the roots, and one zero root is added for
    every trailing zero that was stripped.  An all-zero [p] has no
    roots. *)
Definition roots (p : list R) : list complex :=
  match nonzero p with
  | [] => []
  | (first :: _) as non_zero =>
      let last_nz := last non_zero 0%nat in
      let trailing_zeros := (length p - last_nz - 1)%nat in
      let p := slice p first (last_nz + 1) in
      let N := length p in
      let roots :=
        if (1 <? N)%nat
        then eigvals (map (fun x => - x / hd 0 p) (tl p))
        else [] in
      roots ++ repeat (0, 0) trailing_zeros
  end.

End Roots.

(** [np.sort] on a complex array: by real part, then by imaginary part. *)
Definition complex_leb (x y : complex) : bool :=
  if Rlt_dec (fst x) (fst y) then true
  else if Rlt_dec (fst y) (fst x) then false
  else if Rle_dec (snd x) (snd y) then true else false.

Fixpoint insert_sorted (x : complex) (l : list complex) : list complex :=
  match l with
  | [] => [x]
  | y :: t => if complex_leb x y then x :: l else y :: insert_sorted x t
  end.

Definition sort (l : list complex) : list complex :=
  fold_right insert_sorted [] l.

(** [np.polyval]: the polynomial with coefficients [p], highest power
    first, at [x]. *)
Definition polyval (p : list R) (x : R) : R :=
  fold_left (fun acc c => acc * x + c) p 0.

End np.

Import np.

(** ** Particles *)

Record Particle : Type := mk_Particle {
  symbol : String.string;
  is_ion : bool;
  charge_number : Z;
  mass : R
}.

(** [Particle("e-")]. *)
Definition electron : Particle :=
  mk_Particle "e-" false (-1) (91093837015 / 10 ^ 41).

(** The [ions] argument: one particle, or a list or tuple of them. *)
Inductive ions_arg : Type :=
| OneParticle (p : Particle)
| Particles (l : list Particle).

(** [if not isinstance(ions, (list, tuple)): ions = [ions]], then
    [ParticleList(ions)]. *)
Definition ParticleList (a : ions_arg) : list Particle :=
  match a with
  | OneParticle p => [p]
  | Particles l => l
  end.

(** The ions and densities of the example in the docstring of [stix]:
    [H+] and [He+] at [4.0e5] and [2.0e5] per cubic metre. *)
Definition H_plus : Particle := mk_Particle "H 1+" true 1 (167262192369 / 10 ^ 38).
Definition He_plus : Particle := mk_Particle "He 1+" true 1 (6645566 / 10 ^ 33).
Definition example_ions : ions_arg := Particles [H_plus; He_plus].
Definition example_n_i : ndarray := array [400000; 200000].

(** A hydrogen atom, which carries no charge. *)
Definition H_neutral : Particle := mk_Particle "H" false 0 (167353284 / 10 ^ 35).

(** Physical constants of [astropy.constants.si]. *)
Definition c_si_unitless : R := 299792458.
Definition eps0 : R := 88541878128 / 10 ^ 22.
Definition e_si : R := 1602176634 / 10 ^ 28.

(** A Python dict keyed by a float: setting an existing key replaces its
    value in place, a new key goes last. *)
Definition dict (V : Type) : Type := list (R * V).

Fixpoint dict_set {V} (d : dict V) (k : R) (v : V) : dict V :=
  match d with
  | [] => [(k, v)]
  | (k', v') :: t =>
      if Req_dec_T k' k then (k', v) :: t else (k', v') :: dict_set t k v
  end.

(** [d[k]]; the code reads only a key it has just set (a key that is not
    there reads as the empty array here). *)
Fixpoint dict_get {V} (d : dict (list V)) (k : R) : list V :=
  match d with
  | [] => []
  | (k', v') :: t => if Req_dec_T k' k then v' else dict_get t k
  end.

Definition keys {V} (d : dict V) : list R := map fst d.

(** ** [stix] *)

Section Stix.

(** [plasmapy.formulary.frequencies]: the plasma frequency of a species
    at a density, and its unsigned gyrofrequency in a field. *)
Variable plasma_frequency : R -> Particle -> R.
Variable gyrofrequency : R -> Particle -> R.

(** LAPACK's eigenvalues, see [np.roots]. *)
Variable eig : list R -> nat -> complex.

(** *** Validation of the arguments *)

(** [ion.is_ion and ion.charge_number > 0] *)
Definition positive_ion (ion : Particle) : bool :=
  is_ion ion && (0 <? charge_number ion)%Z.

(** Lines 151-161. *)
Definition stix_ions (ions : ions_arg) : result (list Particle) :=
  let ions := ParticleList ions in
  if negb (forallb positive_ion ions)
  then raise (ValueError InvalidSpecies)
  else ret ions.

(** Lines 163-179: the shape of [n_i], then its broadcast to one
    density per ion. *)
Definition stix_n_i (n_i : ndarray) (len_ions : nat) : result (list R) :=
  if negb ((ndim n_i =? 0)%nat || (ndim n_i =? 1)%nat)
  then raise (ValueError Shape)
  else if (ndim n_i =? 1)%nat && negb (size n_i =? len_ions)%nat
  then raise (ValueError Shape)
  else
    ret (if (ndim n_i =? 0)%nat then repeat (item n_i) len_ions
         else if (size n_i =? 1)%nat then repeat_each (data n_i) len_ions
         else data n_i).

(** Lines 181-184. *)
Definition stix_species (ions : list Particle) : list Particle :=
  ions ++ [electron].

Definition stix_densities (n_i : list R) (ions : list Particle) : list R :=
  n_i ++ [sum (map (fun '(n, ion) => n * IZR (charge_number ion)) (combine n_i ions))].

(** Lines 186-192. *)
Definition stix_B (B : ndarray) : result R :=
  let B := squeeze B in
  if negb (ndim B =? 0)%nat then raise (ValueError Shape) else ret (item B).

(** Lines 194-204.  [w] is the single value the docstring asks for, so
    of the checks on [w] only the sign test can fire. *)
Definition stix_w (w : R) : result R :=
  if Rle_dec w 0 then raise (ValueError Sign) else ret w.

(** Lines 206-215.  The message of the [TypeError] reads [k.shape], and
    [k] is a local variable that is assigned only at line 255: building
    the message raises [UnboundLocalError] before the [TypeError]
    exists.  The angles are taken to be in radians already. *)
Definition stix_theta (theta : ndarray) : result (list R) :=
  let theta := squeeze theta in
  if negb ((ndim theta =? 0)%nat || (ndim theta =? 1)%nat)
  then raise (UnboundLocalError "k")
  else ret (if (ndim theta =? 0)%nat then [item theta] else data theta).

(** *** The cold-plasma scalars, lines 227-238 *)

Record stix_parameters : Type := mk_parameters {
  par_S : R; par_P : R; par_D : R; par_R : R; par_L : R
}.

Definition stix_SPD_step (w : R) (wps wcs : list R) (acc : R * R * R) (i : nat)
  : R * R * R :=
  let '(S_, P_, D_) := acc in
  let wp := nth i wps 0 in
  let wc := nth i wcs 0 in
  (S_ - wp ^ 2 / (w ^ 2 + wc ^ 2),
   P_ - (wp / w) ^ 2,
   D_ + (wp ^ 2 / (w ^ 2 + wc ^ 2)) * (wc / w)).

Definition stix_SPD (w : R) (wps wcs : list R) : R * R * R :=
  fold_left (stix_SPD_step w wps wcs) (seq 0 (length wps)) (1, 1, 0).

Definition stix_SPDRL (w : R) (wps wcs : list R) : stix_parameters :=
  let '(S_, P_, D_) := stix_SPD w wps wcs in
  let R_ := S_ + D_ in
  let L_ := S_ - D_ in
  mk_parameters S_ P_ D_ R_ L_.

(** *** The coefficients, lines 240-252 *)

Definition stix_A (p : stix_parameters) (theta : R) : R :=
  par_S p * sin theta ^ 2 + par_P p * cos theta ^ 2.

Definition stix_B_coefficient (p : stix_parameters) (theta : R) : R :=
  - (par_R p * par_L p * sin theta ^ 2
     + par_P p * par_S p * (1 + cos theta ^ 2)).

Definition stix_C (p : stix_parameters) (theta : R) : R :=
  par_P p * par_R p * par_L p.

(** *** The solutions, lines 254-266 *)

(** The list handed to [np.roots] in iteration [i]. *)
Definition stix_coefficients (w : R) (A B C : list R) (i : nat) : list R :=
  let arg_ := c_si_unitless / w in
  let a := arg_ * nth i A 0 in
  let b := arg_ * nth i B 0 in
  let c := nth i C 0 in
  [a; 0; b; 0; c].

Definition stix_solve (w : R) (p : stix_parameters) (theta : list R)
  : dict (list complex) :=
  let A := map (stix_A p) theta in
  let B := map (stix_B_coefficient p) theta in
  let C := map (stix_C p) theta in
  fold_left
    (fun k i =>
       let coefficients := stix_coefficients w A B C i in
       let k := dict_set k (nth i theta 0) (roots eig coefficients) in
       dict_set k (nth i theta 0) (sort (dict_get k (nth i theta 0))))
    (seq 0 (length theta)) [].

(** Lines 217-266: everything after the validation. *)
Definition stix_core (B w : R) (species : list Particle) (densities theta : list R)
  : dict (list complex) :=
  let wps := map (fun '(par, dens) => plasma_frequency dens par)
                 (combine species densities) in
  let wcs := map (fun '(par, dens) => gyrofrequency B par)
                 (combine species densities) in
  stix_solve w (stix_SPDRL w wps wcs) theta.

Definition stix (B : ndarray) (w : R) (ions : ions_arg) (n_i theta : ndarray)
  : result (dict (list complex)) :=
  ions <- stix_ions ions ;;
  n_i <- stix_n_i n_i (length ions) ;;
  let species := stix_species ions in
  let densities := stix_densities n_i ions in
  B <- stix_B B ;;
  w <- stix_w w ;;
  theta <- stix_theta theta ;;
  ret (stix_core B w species densities theta).

(** *** What the statements below are phrased with *)

(** The array stored under the angle [theta]. *)
Definition stix_entry (w : R) (p : stix_parameters) (theta : R) : list complex :=
  let arg_ := c_si_unitless / w in
  sort (roots eig [arg_ * stix_A p theta; 0; arg_ * stix_B_coefficient p theta; 0;
                   stix_C p theta]).

(** The dispersion relation of the docstring, in the reduced variable
    [x = c k / w]:
    [(S sin^2 + P cos^2) x^4 - (R L sin^2 + P S (1 + cos^2)) x^2 + P R L]. *)
Definition biquadratic (p : stix_parameters) (theta x : R) : R :=
  stix_A p theta * x ^ 4 + stix_B_coefficient p theta * x ^ 2 + stix_C p theta.

(** What one species adds to the sums of [S], [P] and [D]. *)
Definition S_term (w wp wc : R) : R := wp ^ 2 / (w ^ 2 + wc ^ 2).
Definition P_term (w wp wc : R) : R := (wp / w) ^ 2.
Definition D_term (w wp wc : R) : R := (wp ^ 2 / (w ^ 2 + wc ^ 2)) * (wc / w).

(** The density the caller supplies for the [i]-th ion: the single value,
    or the [i]-th entry of the array. *)
Definition ion_density (n_i : ndarray) (i : nat) : R :=
  if (ndim n_i =? 0)%nat then item n_i else nth i (data n_i) 0.

End Stix.

(** ** The collisional timescales *)

(** An astropy [Quantity]: its array, and whether [.value] of the scalar
    is an instance of [int] or [float]. *)
Record Quantity : Type := mk_Quantity { q_array : ndarray; q_is_number : bool }.

Definition q_value (q : Quantity) : R := item (q_array q).
Definition q_scalar (x : R) : Quantity := mk_Quantity (scalar x) true.

(** An argument that is expected to be a [Quantity]. *)
Inductive argument : Type :=
| NotAQuantity
| AQuantity (q : Quantity).

(** [q[i]]: a scalar [Quantity] refuses to be indexed, an array gives its
    [i]-th entry along the first axis. *)
Definition Quantity_getitem (q : Quantity) (i : nat) : result Quantity :=
  match shape (q_array q) with
  | [] => raise (TypeError ScalarIndex)
  | n :: rest =>
      if (i <? n)%nat
      then
        let m := fold_right Nat.mul 1%nat rest in
        ret (mk_Quantity (mk_ndarray rest (slice (data (q_array q)) (i * m) (i * m + m)))
                         (q_is_number q))
      else raise IndexError
  end.

(** [l[i]] on a one-dimensional array or a list. *)
Definition list_getitem {A} (l : list A) (i : nat) : result A :=
  match nth_error l i with
  | Some x => ret x
  | None => raise IndexError
  end.

Module validate.

(** Lines 29-54. *)
Definition n_i (n_i : argument) : result Quantity :=
  match n_i with
  | NotAQuantity => raise (TypeError WrongType)
  | AQuantity n_i =>
      let n_i := mk_Quantity (squeeze (q_array n_i)) (q_is_number n_i) in
      if negb (ndim (q_array n_i) =? 0)%nat then raise (ValueError Shape)
      else if negb (q_is_number n_i) then raise (TypeError WrongType)
      else if Rlt_dec 0 (q_value n_i) then ret n_i
      else raise (ValueError Sign)
  end.

(** [ion.is_ion and abs(ion.charge_number) > 0] *)
Definition charged_ion (ion : Particle) : bool :=
  is_ion ion && (0 <? Z.abs (charge_number ion))%Z.

(** Lines 57-79. *)
Definition ions (ions : ions_arg) : result (list Particle) :=
  let ions := ParticleList ions in
  if negb (forallb charged_ion ions)
  then raise (ValueError InvalidSpecies)
  else if negb (length ions =? 2)%nat
  then raise (ValueError InvalidSpecies)
  else ret ions.

(** Lines 82-91; the speeds are a one-dimensional array. *)
Definition speeds (speeds : list R) : result (list R) :=
  if negb (length speeds =? 2)%nat then raise (ValueError Shape) else ret speeds.

(** Lines 96-116. *)
Definition temp (T : Quantity) : result Quantity :=
  if negb (ndim (q_array T) =? 0)%nat then raise (ValueError Shape)
  else if negb (q_is_number T) then raise (TypeError WrongType)
  else if Rlt_dec 0 (q_value T) then ret T
  else raise (ValueError Sign).

(** Lines 118-127.  A function body that ends without [return] gives
    [None]. *)
Definition method (method : pyobj) : result pyobj :=
  is_none <- isinstance method PNone ;;
  if is_none then ret (PStr "classical")
  else
    is_str <- isinstance method (PType Tstr) ;;
    if negb is_str then raise (TypeError WrongType)
    else ret PNone.

End validate.

Section Timescales.

(** [plasmapy.formulary.collisions.coulomb.Coulomb_logarithm],
    [scipy.stats.gausshyper] and [mpmath.hyper2d]. *)
Variable Coulomb_logarithm : Quantity -> Quantity -> list Particle -> pyobj -> R.
Variable gh : R -> R -> R -> R -> R.
Variable hyper2d : R -> R -> R -> R -> R -> R.

Definition charge (p : Particle) : R := IZR (charge_number p) * e_si.

(** Lines 316-336. *)
Definition Hellinger_2009 (T : Quantity) (n_i : argument) (ions : ions_arg)
    (par_speeds : list R) (method : pyobj) : result R :=
  T <- validate.temp T ;;
  n_i <- validate.n_i n_i ;;
  ions <- validate.ions ions ;;
  par_speeds <- validate.speeds par_speeds ;;
  method <- validate.method method ;;
  v0 <- list_getitem par_speeds 0 ;;
  v1 <- list_getitem par_speeds 1 ;;
  let v_par := sqrt ((v0 ^ 2 + v1 ^ 2) / 2) in
  ion0 <- list_getitem ions 0 ;;
  ion1 <- list_getitem ions 1 ;;
  let a := charge ion0 ^ 2 * charge ion1 ^ 2 * q_value n_i in
  let b := 12 * Rpower PI (15 / 10) * (mass ion0 * mass ion1) * eps0 ^ 2 * v_par ^ 3 in
  let c := Coulomb_logarithm T n_i ions method in
  ret (a / b * c).

(** A call of [Hellinger_2009]; [method] has no default value, so a
    call that leaves it out is a [TypeError]. *)
Definition call_Hellinger_2009 (T : Quantity) (n_i : argument) (ions : ions_arg)
    (par_speeds : list R) (method : option pyobj) : result R :=
  match method with
  | Some method => Hellinger_2009 T n_i ions par_speeds method
  | None => raise (TypeError MissingArgument)
  end.

(** Lines 467-483. *)
Definition Hellinger_2010 (T_par T_perp : Quantity) (n_i : argument)
    (ions : ions_arg) (par_speeds : list R) (method : pyobj) : result R :=
  T_par <- validate.temp T_par ;;
  T_perp <- validate.temp T_perp ;;
  n_i <- validate.n_i n_i ;;
  ions <- validate.ions ions ;;
  par_speeds <- validate.speeds par_speeds ;;
  if Req_dec_T (q_value T_par) 0 then raise (ValueError ZeroTemperature)
  else
    let T := q_scalar ((2 * q_value T_perp + q_value T_par) / 3) in
    tau <- call_Hellinger_2009 T (AQuantity n_i) (Particles ions) par_speeds
             (Some method) ;;
    ret (tau * 3 / 5 * gh 2 (15 / 10) (7 / 2) (1 - q_value T_perp / q_value T_par)).

(** Lines 631-650: the body of [Hellinger_2016] after the validation.
    [T_perp[1]] and [T_par[1]] index what [validate.temp] returned, and
    the call of [Hellinger_2009] passes four arguments. *)
Definition Hellinger_2016_body (T_par T_perp n_i : Quantity) (ions : list Particle)
    (par_speeds perp_speeds : list R) (method : pyobj) : result R :=
  if Req_dec_T (q_value T_par) 0 then raise (ValueError ZeroTemperature)
  else
    let T := q_scalar ((2 * q_value T_perp + q_value T_par) / 3) in
    vpar0 <- list_getitem par_speeds 0 ;;
    vpar1 <- list_getitem par_speeds 1 ;;
    let vstpar := sqrt ((vpar0 ^ 2 + vpar1 ^ 2) / 2) in
    m0 <- list_getitem (map mass ions) 0 ;;
    T_perp1 <- Quantity_getitem T_perp 1 ;;
    m1 <- list_getitem (map mass ions) 1 ;;
    T_perp0 <- Quantity_getitem T_perp 0 ;;
    T_par1 <- Quantity_getitem T_par 1 ;;
    T_par0 <- Quantity_getitem T_par 0 ;;
    let Ast := (m0 * q_value T_perp1 + m1 * q_value T_perp0)
               / (m0 * q_value T_par1 + m1 * q_value T_par0) in
    vperp0 <- list_getitem perp_speeds 0 ;;
    let vs := (vpar0 ^ 2 + 2 * vperp0 ^ 2) / 3 in
    vperp1 <- list_getitem perp_speeds 1 ;;
    let vt := (vpar1 ^ 2 + 2 * vperp1 ^ 2) / 3 in
    let vst := vs - vt in
    tau <- call_Hellinger_2009 T (AQuantity n_i) (Particles ions) par_speeds None ;;
    ret (tau * hyper2d 1 (15 / 10) (25 / 10) (1 - Ast)
                       (Ast * (vst ^ 2 / 4 * vstpar ^ 2))).

(** Lines 622-650. *)
Definition Hellinger_2016 (T_par T_perp : Quantity) (n_i : argument)
    (ions : ions_arg) (par_speeds perp_speeds : list R) (method : pyobj)
  : result R :=
  T_par <- validate.temp T_par ;;
  T_perp <- validate.temp T_perp ;;
  n_i <- validate.n_i n_i ;;
  ions <- validate.ions ions ;;
  par_speeds <- validate.speeds par_speeds ;;
  perp_speeds <- validate.speeds perp_speeds ;;
  method <- validate.method method ;;
  Hellinger_2016_body T_par T_perp n_i ions par_speeds perp_speeds method.

End Timescales.

(** ** The dispatcher [Hellinger] *)

(** The dict [inputs] is passed on as keyword arguments: its keys are the
    parameters of one of the three functions, or of none of them. *)
Inductive keyword_arguments : Type :=
| inputs_2009 (T : Quantity) (n_i : argument) (ions : ions_arg)
              (par_speeds : list R) (method : pyobj)
| inputs_2010 (T_par T_perp : Quantity) (n_i : argument) (ions : ions_arg)
              (par_speeds : list R) (method : pyobj)
| inputs_2016 (T_par T_perp : Quantity) (n_i : argument) (ions : ions_arg)
              (par_speeds perp_speeds : list R) (method : pyobj)
| other_keys.

(** How a call of [Hellinger] can end other than by returning. *)
Inductive Hellinger_error : Type :=
| version_TypeError     (* "Argument 'version' must be of type float or integer" *)
| version_ValueError    (* "Argument 'version' is not a valid entry" *)
| keyword_TypeError     (* missing or unexpected keyword argument *)
| raised_inside (e : exn).

Inductive Hellinger_function : Type := F_2009 | F_2010 | F_2016.

Definition valid_versions : list R := [2009; 2010; 2016].
Definition valid_functions : list Hellinger_function := [F_2009; F_2010; F_2016].

(** [isinstance(version, (float, int))], and the number it then is. *)
Definition version_number (version : pyobj) : option R :=
  match version with
  | PInt z => Some (IZR z)
  | PFloat r => Some r
  | _ => None
  end.

(** [l.index(x)], when [x in l]. *)
Fixpoint list_index (x : R) (l : list R) : option nat :=
  match l with
  | [] => None
  | y :: t => if Req_dec_T y x then Some 0%nat else option_map S (list_index x t)
  end.

Section Dispatcher.

Variable Coulomb_logarithm : Quantity -> Quantity -> list Particle -> pyobj -> R.
Variable gh : R -> R -> R -> R -> R.
Variable hyper2d : R -> R -> R -> R -> R -> R.

Definition lift_exn {A} (m : result A) : Hellinger_error + A :=
  match m with
  | inl e => inl (raised_inside e)
  | inr x => inr x
  end.

(** The call of [f] with the entries of [inputs] as keyword arguments. *)
Definition call_with_keywords (f : Hellinger_function) (inputs : keyword_arguments)
  : Hellinger_error + R :=
  match f, inputs with
  | F_2009, inputs_2009 T n_i ions par_speeds method =>
      lift_exn (Hellinger_2009 Coulomb_logarithm T n_i ions par_speeds method)
  | F_2010, inputs_2010 T_par T_perp n_i ions par_speeds method =>
      lift_exn (Hellinger_2010 Coulomb_logarithm gh T_par T_perp n_i ions
                               par_speeds method)
  | F_2016, inputs_2016 T_par T_perp n_i ions par_speeds perp_speeds method =>
      lift_exn (Hellinger_2016 Coulomb_logarithm hyper2d T_par T_perp n_i ions
                               par_speeds perp_speeds method)
  | _, _ => inl keyword_TypeError
  end.

(** Lines 184-198. *)
Definition Hellinger (inputs : keyword_arguments) (version : pyobj)
  : Hellinger_error + R :=
  match version_number version with
  | None => inl version_TypeError
  | Some v =>
      match list_index v valid_versions with
      | None => inl version_ValueError
      | Some i => call_with_keywords (nth i valid_functions F_2009) inputs
      end
  end.

End Dispatcher.

(** ** What the further statements are phrased with *)

(** The distinct elements of a list, in the order of their first
    appearance. *)
Definition first_occurrences (l : list R) : list R :=
  fold_left (fun seen x => if in_dec Req_dec_T x seen then seen else seen ++ [x]) l [].

(** The order [np.sort] puts complex numbers in. *)
Definition complex_le (x y : complex) : Prop := complex_leb x y = true.

(** The scalars [stix] computes from what reaches line 217. *)
Definition stix_core_parameters (plasma_frequency gyrofrequency : R -> Particle -> R)
    (B w : R) (species : list Particle) (densities : list R) : stix_parameters :=
  stix_SPDRL w
    (map (fun '(par, dens) => plasma_frequency dens par) (combine species densities))
    (map (fun '(par, dens) => gyrofrequency B par) (combine species densities)).

(** Collaborators to instantiate a statement with: a species without
    plasma oscillation or gyration, and an eigenvalue routine that
    reports zeros. *)
Definition no_frequency : R -> Particle -> R := fun _ _ => 0.
Definition zero_eig : list R -> nat -> complex := fun _ _ => (0, 0).

(** The exceptions the validators of the timescales raise. *)
Definition validation_error (e : exn) : bool :=
  match e with
  | ValueError Shape | ValueError Sign | ValueError InvalidSpecies
  | TypeError WrongType | TypeError IsinstanceArg2 => true
  | _ => false
  end.

(** * Properties *)

(** ** Lists, sums and dicts *)

Lemma fold_left_ext_in {A B} (f g : A -> B -> A) (l : list B) :
  (forall acc x, In x l -> f acc x = g acc x) ->
  forall acc, fold_left f l acc = fold_left g l acc.
Proof.
  induction l as [|x l IH]; intros Hfg acc; simpl.
  - reflexivity.
  - rewrite (Hfg acc x) by (left; reflexivity).
    apply IH. intros acc' y Hy. apply Hfg. right. exact Hy.
Qed.

Lemma fold_left_map_list {A B C} (f : A -> C -> A) (g : B -> C) (l : list B) :
  forall acc, fold_left f (map g l) acc = fold_left (fun a x => f a (g x)) l acc.
Proof. induction l as [|x l IH]; intros acc; simpl; [reflexivity | apply IH]. Qed.

(** A loop over [range(len(l))] that only reads [l[i]] is a loop over [l]. *)
Lemma fold_left_range {A B} (f : B -> A -> B) (d : A) (l : list A) :
  forall acc,
    fold_left (fun acc i => f acc (nth i l d)) (seq 0 (length l)) acc
    = fold_left f l acc.
Proof.
  induction l as [|x l IH]; intros acc; simpl.
  - reflexivity.
  - rewrite <- seq_shift, fold_left_map_list. simpl. apply IH.
Qed.

Lemma nth_map_in_range {A B} (f : A -> B) (l : list A) (d : A) (d' : B) (i : nat) :
  (i < length l)%nat -> nth i (map f l) d' = f (nth i l d).
Proof.
  intros Hi. rewrite (nth_indep _ d' (f d)) by (rewrite length_map; exact Hi).
  apply map_nth.
Qed.

Lemma dict_get_set {V} (d : dict (list V)) (k k' : R) (v : list V) :
  dict_get (dict_set d k v) k'
  = if Req_dec_T k k' then v else dict_get d k'.
Proof.
  induction d as [|[k0 v0] d IH]; simpl.
  - reflexivity.
  - destruct (Req_dec_T k0 k) as [E|N]; simpl.
    + subst k0. destruct (Req_dec_T k k'); reflexivity.
    + destruct (Req_dec_T k0 k') as [E'|N'].
      * subst k0. destruct (Req_dec_T k k'); [contradiction N; auto | reflexivity].
      * exact IH.
Qed.

Lemma dict_set_set {V} (d : dict V) (k : R) (v v' : V) :
  dict_set (dict_set d k v) k v' = dict_set d k v'.
Proof.
  induction d as [|[k0 v0] d IH]; simpl.
  - destruct (Req_dec_T k k); [reflexivity | contradiction].
  - destruct (Req_dec_T k0 k) as [E|N]; simpl.
    + destruct (Req_dec_T k0 k); [reflexivity | contradiction].
    + destruct (Req_dec_T k0 k); [contradiction | rewrite IH; reflexivity].
Qed.

Lemma keys_dict_set {V} (d : dict V) (k : R) (v : V) :
  keys (dict_set d k v) = if in_dec Req_dec_T k (keys d) then keys d else keys d ++ [k].
Proof.
  unfold keys. induction d as [|[k0 v0] d IH]; simpl.
  - reflexivity.
  - destruct (Req_dec_T k0 k) as [E|N]; simpl.
    + reflexivity.
    + rewrite IH. destruct (in_dec Req_dec_T k (map fst d)); reflexivity.
Qed.

Lemma sort_length (l : list complex) : length (sort l) = length l.
Proof.
  assert (H : forall x m, length (insert_sorted x m) = S (length m)).
  { intros x m. induction m as [|y m IH]; simpl; [reflexivity|].
    destruct (complex_leb x y); simpl; [reflexivity | rewrite IH; reflexivity]. }
  induction l as [|x l IH]; simpl; [reflexivity | rewrite H, IH; reflexivity].
Qed.

(** ** The cold-plasma scalars *)

Section ColdPlasmaScalars.

Variable plasma_frequency : R -> Particle -> R.
Variable gyrofrequency : R -> Particle -> R.

Lemma stix_SPD_loop (w : R) (wps wcs : list R) (idx : list nat) :
  forall s p d,
    fold_left (stix_SPD_step w wps wcs) idx (s, p, d)
    = (s - sum (map (fun i => S_term w (nth i wps 0) (nth i wcs 0)) idx),
       p - sum (map (fun i => P_term w (nth i wps 0) (nth i wcs 0)) idx),
       d + sum (map (fun i => D_term w (nth i wps 0) (nth i wcs 0)) idx)).
Proof.
  induction idx as [|i idx IH]; intros s p d; cbn [fold_left stix_SPD_step].
  - cbn [map sum fold_right]. f_equal; [f_equal|]; lra.
  - rewrite IH. unfold sum, S_term, P_term, D_term. cbn [map fold_right].
    f_equal; [f_equal|]; lra.
Qed.

Lemma stix_SPD_sums (w : R) {A} (l : list A) (wp wc : A -> R) :
  stix_SPD w (map wp l) (map wc l)
  = (1 - sum (map (fun s => S_term w (wp s) (wc s)) l),
     1 - sum (map (fun s => P_term w (wp s) (wc s)) l),
     sum (map (fun s => D_term w (wp s) (wc s)) l)).
Proof.
  unfold stix_SPD. rewrite stix_SPD_loop, length_map.
  assert (E : forall (f : R -> R -> R -> R),
             map (fun i => f w (nth i (map wp l) 0) (nth i (map wc l) 0))
                 (seq 0 (length l))
             = map (fun s => f w (wp s) (wc s)) l).
  { intros f. induction l as [|x l IH]; simpl.
    - reflexivity.
    - f_equal. rewrite <- seq_shift, map_map. simpl. exact IH. }
  rewrite !E, Rplus_0_l. reflexivity.
Qed.

(** C2.  For the species list of [stix] (the ions and the appended
    electron) with their densities, the loop of lines 227-238 leaves
    [S = 1 - sum_s wp_s^2 / (w^2 + wc_s^2)], [P = 1 - sum_s (wp_s / w)^2]
    and [D = sum_s (wp_s^2 / (w^2 + wc_s^2)) * (wc_s / w)], where [wp_s] is
    the plasma frequency of the species at its density and [wc_s] its
    unsigned gyrofrequency, and [R = S + D], [L = S - D]. *)
Theorem stix_scalars_are_the_cold_plasma_sums :
  forall (B w : R) (ions : list Particle) (n_i : list R),
    let species := combine (stix_species ions) (stix_densities n_i ions) in
    let wp := fun s : Particle * R => plasma_frequency (snd s) (fst s) in
    let wc := fun s : Particle * R => gyrofrequency B (fst s) in
    let wps := map (fun '(par, dens) => plasma_frequency dens par) species in
    let wcs := map (fun '(par, dens) => gyrofrequency B par) species in
    let p := stix_SPDRL w wps wcs in
    par_S p = 1 - sum (map (fun s => wp s ^ 2 / (w ^ 2 + wc s ^ 2)) species)
    /\ par_P p = 1 - sum (map (fun s => (wp s / w) ^ 2) species)
    /\ par_D p = sum (map (fun s => (wp s ^ 2 / (w ^ 2 + wc s ^ 2)) * (wc s / w)) species)
    /\ par_R p = par_S p + par_D p
    /\ par_L p = par_S p - par_D p.
Proof.
  intros B w ions n_i species wp wc wps wcs p.
  assert (Ewps : wps = map wp species).
  { unfold wps. apply map_ext. intros [par dens]. reflexivity. }
  assert (Ewcs : wcs = map wc species).
  { unfold wcs. apply map_ext. intros [par dens]. reflexivity. }
  unfold p, stix_SPDRL. rewrite Ewps, Ewcs, stix_SPD_sums. simpl.
  unfold S_term, P_term, D_term. repeat split; reflexivity.
Qed.

End ColdPlasmaScalars.

(** ** The species list and the densities *)

Lemma stix_ions_ok (a : ions_arg) (ions : list Particle) :
  stix_ions a = inr ions ->
  ions = ParticleList a /\ forallb positive_ion ions = true.
Proof.
  unfold stix_ions. destruct (forallb positive_ion (ParticleList a)) eqn:E; simpl.
  - intros H. injection H as <-. split; [reflexivity | exact E].
  - discriminate.
Qed.

Lemma stix_n_i_length (n_i : ndarray) (k : nat) (nvec : list R) :
  well_formed n_i -> stix_n_i n_i k = inr nvec ->
  length nvec = k /\ forall i, (i < k)%nat -> nth i nvec 0 = ion_density n_i i.
Proof.
  unfold well_formed, stix_n_i, ion_density, ndim, size.
  destruct n_i as [sh dt]; simpl. intros Hwf.
  destruct sh as [|m [|m' sh]]; simpl in *.
  - intros H. injection H as <-. split; [apply repeat_length|].
    intros i Hi. apply nth_repeat_lt. exact Hi.
  - rewrite Nat.mul_1_r in *.
    destruct (m =? k)%nat eqn:Emk; simpl; [|discriminate].
    apply Nat.eqb_eq in Emk. subst k.
    destruct (m =? 1)%nat eqn:Em1; intros H; injection H as <-.
    + apply Nat.eqb_eq in Em1. subst m.
      destruct dt as [|x [|y dt]]; try discriminate. simpl.
      split; [reflexivity | intros i Hi; reflexivity].
    + split; [exact Hwf | intros i Hi; reflexivity].
  - discriminate.
Qed.

Lemma electron_density_sum (ions : list Particle) :
  forall nvec : list R,
    length nvec = length ions ->
    sum (map (fun '(n, ion) => n * IZR (charge_number ion)) (combine nvec ions))
    = sum (map (fun i => nth i nvec 0 * IZR (charge_number (nth i ions electron)))
               (seq 0 (length ions))).
Proof.
  induction ions as [|ion ions IH]; intros [|n nvec] Hlen; simpl in *;
    try reflexivity; try discriminate.
  injection Hlen as Hlen. rewrite (IH nvec Hlen).
  rewrite <- seq_shift, map_map. reflexivity.
Qed.

(** C6.  Whenever the species and density checks of [stix] pass, the
    species sequence is the supplied ions followed by one electron (its
    only entry that is not a positive ion), there is one density per
    species, and the density of the electron is the sum over the supplied
    ions of the ion's density times its charge number. *)
Theorem stix_appends_one_quasineutral_electron :
  forall (a : ions_arg) (n_i : ndarray) (ions : list Particle) (nvec : list R),
    well_formed n_i ->
    stix_ions a = inr ions ->
    stix_n_i n_i (length ions) = inr nvec ->
    stix_species ions = ParticleList a ++ [electron]
    /\ filter (fun s => negb (positive_ion s)) (stix_species ions) = [electron]
    /\ length (stix_densities nvec ions) = length (stix_species ions)
    /\ last (stix_densities nvec ions) 0
       = sum (map (fun i => ion_density n_i i
                            * IZR (charge_number (nth i (ParticleList a) electron)))
                  (seq 0 (length (ParticleList a)))).
Proof.
  intros a n_i ions nvec Hwf Hions Hn.
  apply stix_ions_ok in Hions. destruct Hions as [Eions Hpos].
  destruct (stix_n_i_length n_i (length ions) nvec Hwf Hn) as [Hlen Hnth].
  rewrite <- Eions. unfold stix_species, stix_densities. repeat split.
  - rewrite filter_app. simpl.
    assert (E : filter (fun s => negb (positive_ion s)) ions = []).
    { clear - Hpos. induction ions as [|x l IH]; simpl in *; [reflexivity|].
      apply andb_prop in Hpos. destruct Hpos as [Hx Hl].
      rewrite Hx. simpl. apply IH. exact Hl. }
    rewrite E. reflexivity.
  - rewrite !length_app. simpl. lia.
  - rewrite last_last, (electron_density_sum ions nvec Hlen).
    f_equal. apply map_ext_in. intros i Hi. apply in_seq in Hi.
    rewrite Hnth by lia. reflexivity.
Qed.

Lemma stix_appends_one_quasineutral_electron_witness :
  last (stix_densities [400000; 200000] [H_plus; He_plus]) 0
  = sum (map (fun i => ion_density example_n_i i
                       * IZR (charge_number (nth i (ParticleList example_ions) electron)))
             (seq 0 (length (ParticleList example_ions)))).
Proof.
  apply (stix_appends_one_quasineutral_electron example_ions example_n_i
           [H_plus; He_plus] [400000; 200000]); reflexivity.
Defined.

(** ** Validation in [stix] *)

Section StixValidation.

Variable plasma_frequency : R -> Particle -> R.
Variable gyrofrequency : R -> Particle -> R.
Variable eig : list R -> nat -> complex.

Lemma forallb_false_iff {A} (f : A -> bool) (l : list A) :
  forallb f l = false <-> exists x, In x l /\ f x = false.
Proof.
  induction l as [|y l IH]; simpl.
  - split; [discriminate | intros [x [[] _]]].
  - rewrite andb_false_iff, IH. split.
    + intros [Hy | [x [Hx Hf]]]; [exists y | exists x]; auto.
    + intros [x [[<- | Hx] Hf]]; [left; exact Hf | right; exists x; auto].
Qed.

(** The density check: a density that is neither a single value nor a
    one-dimensional array with one entry per ion is refused as soon as the
    ions have been accepted. *)
Lemma stix_n_i_shape_error (n_i : ndarray) (k : nat) :
  ((ndim n_i <> 0)%nat /\ ((ndim n_i <> 1)%nat \/ (size n_i <> k)%nat)) ->
  stix_n_i n_i k = inl (ValueError Shape).
Proof.
  unfold stix_n_i. intros [H0 H1].
  destruct (ndim n_i =? 0)%nat eqn:E0; [apply Nat.eqb_eq in E0; contradiction|].
  destruct (ndim n_i =? 1)%nat eqn:E1; simpl; [|reflexivity].
  destruct (size n_i =? k)%nat eqn:Ek; simpl; [|reflexivity].
  apply Nat.eqb_eq in E1, Ek. destruct H1; contradiction.
Qed.

Lemma stix_refuses_bad_density_shape (B : ndarray) (w : R) (a : ions_arg)
    (n_i theta : ndarray) (ions : list Particle) :
  stix_ions a = inr ions ->
  ((ndim n_i <> 0)%nat /\ ((ndim n_i <> 1)%nat \/ (size n_i <> length ions)%nat)) ->
  stix plasma_frequency gyrofrequency eig B w a n_i theta = inl (ValueError Shape).
Proof.
  intros Hions Hn. unfold stix. rewrite Hions. simpl.
  rewrite (stix_n_i_shape_error n_i (length ions) Hn). reflexivity.
Qed.

(** The angle check: once everything before it has passed, an angle array
    that keeps more than one axis after the squeeze stops [stix] with the
    [UnboundLocalError] of the message, not with the error the [raise]
    names. *)
Lemma stix_theta_error (theta : ndarray) :
  (1 < ndim (squeeze theta))%nat ->
  stix_theta theta = inl (UnboundLocalError "k").
Proof.
  unfold stix_theta. intros H.
  destruct (ndim (squeeze theta)) as [|[|n]]; try lia. reflexivity.
Qed.

Lemma stix_stops_at_the_angle_message (B : ndarray) (w : R) (a : ions_arg)
    (n_i theta : ndarray) (ions : list Particle) (nvec : list R) (b : R) :
  stix_ions a = inr ions ->
  stix_n_i n_i (length ions) = inr nvec ->
  stix_B B = inr b ->
  0 < w ->
  (1 < ndim (squeeze theta))%nat ->
  stix plasma_frequency gyrofrequency eig B w a n_i theta
  = inl (UnboundLocalError "k").
Proof.
  intros Hions Hn HB Hw Hth. unfold stix.
  rewrite Hions. cbn [bind]. rewrite Hn. cbn [bind]. rewrite HB. cbn [bind].
  unfold stix_w. destruct (Rle_dec w 0) as [H|_]; [lra|]. cbn [bind].
  rewrite (stix_theta_error theta Hth). reflexivity.
Qed.

(** C4.  At the inputs of the docstring's example with a two-by-two
    array of angles, [stix] does not end in a shape error: it ends in
    [UnboundLocalError], raised while the message of the intended
    [TypeError] is built.  (A two-dimensional density at the same inputs
    does give the shape error, [ValueError].) *)
Theorem stix_2d_theta_is_not_a_shape_error :
  stix plasma_frequency gyrofrequency eig
       (scalar (83 / 10 ^ 10)) (1 / 1000) example_ions example_n_i
       (mk_ndarray [2; 2]%nat [0; 1; 2; 3])
  = inl (UnboundLocalError "k")
  /\ is_shape_error (UnboundLocalError "k") = false
  /\ stix plasma_frequency gyrofrequency eig
          (scalar (83 / 10 ^ 10)) (1 / 1000) example_ions
          (mk_ndarray [2; 2]%nat [400000; 200000; 400000; 200000])
          (scalar (PI / 6))
     = inl (ValueError Shape).
Proof.
  split; [|split].
  - apply (stix_stops_at_the_angle_message _ _ _ _ _ [H_plus; He_plus]
             [400000; 200000] (83 / 10 ^ 10)); try reflexivity.
    + lra.
    + unfold ndim, squeeze. simpl. lia.
  - reflexivity.
  - reflexivity.
Qed.

(** C7.  A single density [n] gives the result of the array that holds
    [n] once per ion, every other argument being the same. *)
Theorem stix_density_broadcast :
  forall (B : ndarray) (w : R) (a : ions_arg) (n : R) (theta : ndarray),
    stix plasma_frequency gyrofrequency eig B w a (scalar n) theta
    = stix plasma_frequency gyrofrequency eig B w a
           (array (repeat n (length (ParticleList a)))) theta.
Proof.
  intros B w a n theta. unfold stix.
  destruct (stix_ions a) as [e | ions] eqn:Hions; [reflexivity|].
  apply stix_ions_ok in Hions. destruct Hions as [-> _].
  cbn [bind]. set (k := length (ParticleList a)).
  assert (Es : stix_n_i (scalar n) k = inr (repeat n k)) by reflexivity.
  assert (Ea : stix_n_i (array (repeat n k)) k = inr (repeat n k)).
  { unfold stix_n_i, array, ndim, size. simpl.
    rewrite repeat_length, Nat.mul_1_r, Nat.eqb_refl. simpl.
    destruct (k =? 1)%nat eqn:E1; [|reflexivity].
    apply Nat.eqb_eq in E1. rewrite E1. reflexivity. }
  rewrite Es, Ea. reflexivity.
Qed.

(** The species check of [stix] comes first: one particle that is not a
    positively charged ion is enough for the invalid-species error,
    whatever the other arguments are. *)
Lemma stix_refuses_species (B : ndarray) (w : R) (a : ions_arg) (n_i theta : ndarray) :
  (exists ion, In ion (ParticleList a) /\ positive_ion ion = false) ->
  stix plasma_frequency gyrofrequency eig B w a n_i theta
  = inl (ValueError InvalidSpecies).
Proof.
  intros H. apply forallb_false_iff in H.
  unfold stix, stix_ions. rewrite H. reflexivity.
Qed.

End StixValidation.

(** ** The roots and the result map *)

Section StixSolutions.

Variable eig : list R -> nat -> complex.

(** The loop of lines 257-264 stores, under every angle, the entry that
    depends on that angle alone. *)
Lemma stix_solve_eq (w : R) (p : stix_parameters) (theta : list R) :
  stix_solve eig w p theta
  = fold_left (fun k th => dict_set k th (stix_entry eig w p th)) theta [].
Proof.
  unfold stix_solve.
  rewrite <- (fold_left_range (fun k th => dict_set k th (stix_entry eig w p th)) 0).
  apply fold_left_ext_in. intros k i Hi. apply in_seq in Hi.
  assert (Hlt : (i < length theta)%nat) by lia.
  unfold stix_coefficients.
  rewrite (nth_map_in_range (stix_A p) theta 0 0 i Hlt).
  rewrite (nth_map_in_range (stix_B_coefficient p) theta 0 0 i Hlt).
  rewrite (nth_map_in_range (stix_C p) theta 0 0 i Hlt).
  cbv zeta. rewrite dict_get_set.
  destruct (Req_dec_T (nth i theta 0) (nth i theta 0)) as [_|N]; [|contradiction].
  rewrite dict_set_set. reflexivity.
Qed.

Lemma stix_solve_get (w : R) (p : stix_parameters) (theta : list R) (th : R) :
  dict_get (stix_solve eig w p theta) th
  = if in_dec Req_dec_T th theta then stix_entry eig w p th else [].
Proof.
  rewrite stix_solve_eq.
  assert (G : forall d,
             dict_get (fold_left (fun k t => dict_set k t (stix_entry eig w p t)) theta d) th
             = if in_dec Req_dec_T th theta then stix_entry eig w p th else dict_get d th).
  { induction theta as [|t theta IH]; intros d; simpl.
    - reflexivity.
    - rewrite IH, dict_get_set.
      destruct (Req_dec_T t th) as [E|N]; destruct (in_dec Req_dec_T th theta);
        subst; reflexivity. }
  rewrite G. reflexivity.
Qed.

(** The keys of the result are the supplied angles, each once. *)
Lemma stix_solve_keys (w : R) (p : stix_parameters) (theta : list R) :
  NoDup (keys (stix_solve eig w p theta))
  /\ forall th, In th (keys (stix_solve eig w p theta)) <-> In th theta.
Proof.
  rewrite stix_solve_eq.
  assert (G : forall d : dict (list complex),
             NoDup (keys d) ->
             let r := fold_left (fun k t => dict_set k t (stix_entry eig w p t)) theta d in
             NoDup (keys r) /\ forall th, In th (keys r) <-> In th (keys d) \/ In th theta).
  { induction theta as [|t theta IH]; intros d Hd; simpl.
    - split; [exact Hd | intros th; tauto].
    - specialize (IH (dict_set d t (stix_entry eig w p t))).
      rewrite keys_dict_set in IH.
      destruct (in_dec Req_dec_T t (keys d)) as [Hin|Hout].
      + destruct (IH Hd) as [Hnd Hk]. split; [exact Hnd|].
        intros th. rewrite Hk. split; [tauto|].
        intros [H | [<- | H]]; tauto.
      + assert (Hd' : NoDup (keys d ++ [t])).
        { apply NoDup_app; [exact Hd | repeat constructor; intros [] |].
          intros x Hx [<- | []]. contradiction. }
        destruct (IH Hd') as [Hnd Hk]. split; [exact Hnd|].
        intros th. rewrite Hk, in_app_iff. simpl. tauto. }
  destruct (G [] (NoDup_nil _)) as [Hnd Hk]. split; [exact Hnd|].
  intros th. rewrite Hk. simpl. tauto.
Qed.


Lemma roots_length_degenerate (a b c : R) :
  a = 0 ->
  length (roots eig [a; 0; b; 0; c]) = if is_zero b then 0%nat else 2%nat.
Proof.
  intros Ha. unfold roots, nonzero, nonzero_from, is_zero.
  destruct (Req_dec_T a 0) as [_|N]; [|contradiction].
  destruct (Req_dec_T 0 0) as [_|N]; [|contradiction].
  destruct (Req_dec_T b 0), (Req_dec_T c 0); reflexivity.
Qed.

End StixSolutions.

Section StixRoots.

Variable plasma_frequency : R -> Particle -> R.
Variable gyrofrequency : R -> Particle -> R.
Variable eig : list R -> nat -> complex.

Lemma stix_coefficients_even (p : stix_parameters) (th : R) :
  stix_A p (- th) = stix_A p th
  /\ stix_B_coefficient p (- th) = stix_B_coefficient p th
  /\ stix_C p (- th) = stix_C p th.
Proof.
  unfold stix_A, stix_B_coefficient, stix_C. rewrite sin_neg, cos_neg.
  replace ((- sin th) ^ 2) with (sin th ^ 2) by ring.
  repeat split; reflexivity.
Qed.

Lemma stix_entry_neg (w : R) (p : stix_parameters) (th : R) :
  stix_entry eig w p (- th) = stix_entry eig w p th.
Proof.
  unfold stix_entry.
  destruct (stix_coefficients_even p th) as [-> [-> ->]]. reflexivity.
Qed.

(** C9.  Whatever arguments reach the solver, the array that the result
    for the angles [theta] holds under an angle [th] is the array that the
    result for the negated angles holds under [- th]: the coefficients
    depend on the angle through the squares of its sine and cosine only. *)
Theorem stix_angle_symmetry :
  forall (B w : R) (species : list Particle) (densities theta : list R) (th : R),
    dict_get (stix_core plasma_frequency gyrofrequency eig B w species densities
                        (map Ropp theta)) (- th)
    = dict_get (stix_core plasma_frequency gyrofrequency eig B w species densities
                          theta) th.
Proof.
  intros B w species densities theta th. unfold stix_core.
  rewrite !stix_solve_get, stix_entry_neg.
  destruct (in_dec Req_dec_T (- th) (map Ropp theta)) as [Hn|Hn];
    destruct (in_dec Req_dec_T th theta) as [Hp|Hp]; try reflexivity.
  - exfalso. apply Hp. apply in_map_iff in Hn. destruct Hn as [x [Hx Hin]].
    apply Ropp_eq_compat in Hx. rewrite !Ropp_involutive in Hx.
    subst x. exact Hin.
  - exfalso. apply Hn. apply in_map. exact Hp.
Qed.



(** C3.  Whatever scalars and angle the loops have computed, when the
    first entry [(c / w) A] of the list handed to [np.roots] is zero the
    array stored under a supplied angle does not have four elements:
    [np.roots] drops the leading zeros, so it has two elements when
    [(c / w) B] is not zero and none when it is, and nothing pads it. *)
Theorem stix_zero_leading_coefficient_gives_fewer_roots :
  forall (w : R) (p : stix_parameters) (theta : list R) (th : R),
    In th theta ->
    c_si_unitless / w * stix_A p th = 0 ->
    length (dict_get (stix_solve eig w p theta) th) <> 4%nat
    /\ (c_si_unitless / w * stix_B_coefficient p th <> 0 ->
        length (dict_get (stix_solve eig w p theta) th) = 2%nat)
    /\ (c_si_unitless / w * stix_B_coefficient p th = 0 ->
        length (dict_get (stix_solve eig w p theta) th) = 0%nat).
Proof.
  intros w p theta th Hin Ha. rewrite stix_solve_get.
  destruct (in_dec Req_dec_T th theta) as [_|N]; [|contradiction].
  unfold stix_entry. rewrite sort_length, (roots_length_degenerate eig _ _ _ Ha).
  unfold is_zero.
  destruct (Req_dec_T (c_si_unitless / w * stix_B_coefficient p th) 0) as [E|N].
  - split; [discriminate|]. split; [intros H; contradiction | reflexivity].
  - split; [discriminate|]. split; [reflexivity | intros H; contradiction].
Qed.

(** What [np.roots] is given: the polynomial
    [(c / w) A k^4 + (c / w) B k^2 + C] in [k]. *)
Lemma stix_polynomial (w : R) (p : stix_parameters) (th k : R) :
  polyval [c_si_unitless / w * stix_A p th; 0;
           c_si_unitless / w * stix_B_coefficient p th; 0; stix_C p th] k
  = c_si_unitless / w * stix_A p th * k ^ 4
    + c_si_unitless / w * stix_B_coefficient p th * k ^ 2 + stix_C p th.
Proof. unfold polyval. simpl. ring. Qed.

(** C1.  At [w = 3 c / 4] (so [c / w = 4 / 3]), without magnetic field,
    for two species with plasma frequency [w / 2] and the angle 0, the
    scalars are [S = P = R = L = 1 / 2] and [D = 0]; the list given to
    [np.roots] is [[2/3, 0, -2/3, 0, 1/8]]; [k = 1 / 2] is a root of it;
    and the relation of the docstring at [x = c k / w = 2 / 3] is
    [1 / 648], not 0. *)
Theorem stix_polynomial_is_not_the_biquadratic :
  let w := 3 * c_si_unitless / 4 in
  let p := stix_SPDRL w [w / 2; w / 2] [0; 0] in
  let A := map (stix_A p) [0] in
  let B := map (stix_B_coefficient p) [0] in
  let C := map (stix_C p) [0] in
  p = mk_parameters (1 / 2) (1 / 2) 0 (1 / 2) (1 / 2)
  /\ stix_coefficients w A B C 0 = [2 / 3; 0; - (2 / 3); 0; 1 / 8]
  /\ polyval (stix_coefficients w A B C 0) (1 / 2) = 0
  /\ biquadratic p 0 (c_si_unitless * (1 / 2) / w) = 1 / 648
  /\ biquadratic p 0 (c_si_unitless * (1 / 2) / w) <> 0.
Proof.
  intros w p A B C.
  assert (Ep : p = mk_parameters (1 / 2) (1 / 2) 0 (1 / 2) (1 / 2)).
  { unfold p, w, stix_SPDRL, stix_SPD, c_si_unitless. simpl. f_equal; field. }
  assert (Ec : stix_coefficients w A B C 0 = [2 / 3; 0; - (2 / 3); 0; 1 / 8]).
  { unfold A, B, C. rewrite Ep.
    unfold stix_coefficients, stix_A, stix_B_coefficient, stix_C, w, c_si_unitless.
    simpl. rewrite sin_0, cos_0. repeat (f_equal; try field). }
  assert (Eb : biquadratic p 0 (c_si_unitless * (1 / 2) / w) = 1 / 648).
  { rewrite Ep.
    unfold biquadratic, stix_A, stix_B_coefficient, stix_C, w, c_si_unitless.
    simpl. rewrite sin_0, cos_0. field. }
  repeat split.
  - exact Ep.
  - exact Ec.
  - rewrite Ec. unfold polyval. simpl. field.
  - exact Eb.
  - rewrite Eb. lra.
Qed.

End StixRoots.

(** The scalars and the angle that double arithmetic gives for [p+] and
    [D+] at [3.0e5] and [1.0e5] per cubic metre, without field, at
    [w = 35688.22831658568] and the angle 0: [S = P = D = R = L = 0]. *)
Lemma stix_zero_leading_coefficient_gives_fewer_roots_witness :
  length (dict_get (stix_solve (fun _ _ => (0, 0)) (3568822831658568 / 10 ^ 11)
                               (mk_parameters 0 0 0 0 0) [0]) 0) = 0%nat.
Proof.
  apply (stix_zero_leading_coefficient_gives_fewer_roots (fun _ _ => (0, 0))
           (3568822831658568 / 10 ^ 11) (mk_parameters 0 0 0 0 0) [0] 0).
  - left. reflexivity.
  - unfold stix_A. simpl. ring.
  - unfold stix_B_coefficient. simpl. ring.
Defined.

(** ** Validation in the timescales *)

(** [isinstance(method, None)] is evaluated first, and it raises for every
    [method]: [validate.method] never returns. *)
Lemma validate_method_raises (m : pyobj) :
  validate.method m = inl (TypeError IsinstanceArg2).
Proof. reflexivity. Qed.

Lemma validate_temp_scalar (T T' : Quantity) :
  validate.temp T = inr T' ->
  T' = T /\ shape (q_array T') = [] /\ 0 < q_value T'.
Proof.
  unfold validate.temp, ndim.
  destruct (shape (q_array T)) as [|n sh] eqn:Hs; simpl; [|discriminate].
  destruct (q_is_number T); simpl; [|discriminate].
  destruct (Rlt_dec 0 (q_value T)) as [Hpos|]; [|discriminate].
  intros H. injection H as <-. auto.
Qed.

Lemma validate_ions_refuses (a : ions_arg) :
  (exists ion, In ion (ParticleList a) /\ validate.charged_ion ion = false)
  \/ length (ParticleList a) <> 2%nat ->
  validate.ions a = inl (ValueError InvalidSpecies).
Proof.
  unfold validate.ions. intros [H | H].
  - apply forallb_false_iff in H. rewrite H. reflexivity.
  - destruct (forallb validate.charged_ion (ParticleList a)); simpl; [|reflexivity].
    apply Nat.eqb_neq in H. rewrite H. reflexivity.
Qed.

(** C8.  In [stix], a supplied species that is not a positively charged
    ion gives the invalid-species error, whatever the other arguments are.
    In the timescales, a supplied species that is not a charged ion, or a
    number of species other than 2, makes [validate.ions] give the
    invalid-species error, and with it every timescale function whose
    temperature and density arguments, which are validated first, are
    accepted. *)
Theorem invalid_species_error_is_raised :
  forall a : ions_arg,
    ((exists ion, In ion (ParticleList a) /\ positive_ion ion = false) ->
     forall plasma_frequency gyrofrequency eig (B : ndarray) (w : R)
            (n_i theta : ndarray),
       stix plasma_frequency gyrofrequency eig B w a n_i theta
       = inl (ValueError InvalidSpecies))
    /\ ((exists ion, In ion (ParticleList a) /\ validate.charged_ion ion = false)
        \/ length (ParticleList a) <> 2%nat ->
        validate.ions a = inl (ValueError InvalidSpecies)
        /\ is_invalid_species_error (ValueError InvalidSpecies) = true
        /\ (forall Coulomb_logarithm T n_i T' n_i' par_speeds method,
              validate.temp T = inr T' -> validate.n_i n_i = inr n_i' ->
              Hellinger_2009 Coulomb_logarithm T n_i a par_speeds method
              = inl (ValueError InvalidSpecies))
        /\ (forall Coulomb_logarithm gh T_par T_perp n_i T_par' T_perp' n_i'
                   par_speeds method,
              validate.temp T_par = inr T_par' ->
              validate.temp T_perp = inr T_perp' ->
              validate.n_i n_i = inr n_i' ->
              Hellinger_2010 Coulomb_logarithm gh T_par T_perp n_i a par_speeds method
              = inl (ValueError InvalidSpecies))
        /\ (forall Coulomb_logarithm hyper2d T_par T_perp n_i T_par' T_perp' n_i'
                   par_speeds perp_speeds method,
              validate.temp T_par = inr T_par' ->
              validate.temp T_perp = inr T_perp' ->
              validate.n_i n_i = inr n_i' ->
              Hellinger_2016 Coulomb_logarithm hyper2d T_par T_perp n_i a
                             par_speeds perp_speeds method
              = inl (ValueError InvalidSpecies))).
Proof.
  intros a. split.
  - intros H pf gf eig B w n_i theta. apply stix_refuses_species. exact H.
  - intros H. apply validate_ions_refuses in H. repeat split.
    + exact H.
    + intros CL T n_i T' n_i' par_speeds method HT Hn.
      unfold Hellinger_2009. rewrite HT. cbn [bind]. rewrite Hn. cbn [bind].
      rewrite H. reflexivity.
    + intros CL gh T_par T_perp n_i T_par' T_perp' n_i' par_speeds method
             HT1 HT2 Hn.
      unfold Hellinger_2010. rewrite HT1. cbn [bind]. rewrite HT2. cbn [bind].
      rewrite Hn. cbn [bind]. rewrite H. reflexivity.
    + intros CL hyper2d T_par T_perp n_i T_par' T_perp' n_i' par_speeds
             perp_speeds method HT1 HT2 Hn.
      unfold Hellinger_2016. rewrite HT1. cbn [bind]. rewrite HT2. cbn [bind].
      rewrite Hn. cbn [bind]. rewrite H. reflexivity.
Qed.

Lemma invalid_species_error_is_raised_witness :
  (forall plasma_frequency gyrofrequency eig (B : ndarray) (w : R)
          (n_i theta : ndarray),
     stix plasma_frequency gyrofrequency eig B w
          (Particles [H_plus; H_neutral]) n_i theta
     = inl (ValueError InvalidSpecies))
  /\ validate.ions (Particles [H_plus; H_neutral]) = inl (ValueError InvalidSpecies).
Proof.
  destruct (invalid_species_error_is_raised (Particles [H_plus; H_neutral]))
    as [Hstix Htime].
  split.
  - apply Hstix. exists H_neutral. split; [simpl; auto | reflexivity].
  - apply Htime. left. exists H_neutral. split; [simpl; auto | reflexivity].
Defined.

(** ** The timescale functions never return *)

Lemma bind_raises {A B} (m : result A) (f : A -> result B) :
  (forall x, raises (f x)) -> raises (bind m f).
Proof.
  intros H. destruct m as [e|x]; simpl; [exists e; reflexivity | apply H].
Qed.

Lemma raise_raises {A} (e : exn) : raises (@raise A e).
Proof. exists e. reflexivity. Qed.

(** Indexing what [validate.temp] returned. *)
Lemma validated_temp_has_no_items (T T' : Quantity) (i : nat) :
  validate.temp T = inr T' ->
  Quantity_getitem T' i = inl (TypeError ScalarIndex).
Proof.
  intros H. apply validate_temp_scalar in H. destruct H as [_ [Hs _]].
  unfold Quantity_getitem. rewrite Hs. reflexivity.
Qed.

(** The body of [Hellinger_2016] raises on its own account, whatever
    [method] has become: at [T_perp[1]] if not before. *)
Lemma Hellinger_2016_body_raises
    (Coulomb_logarithm : Quantity -> Quantity -> list Particle -> pyobj -> R)
    (hyper2d : R -> R -> R -> R -> R -> R)
    (T_par T_perp T_par' T_perp' n_i : Quantity) (ions : list Particle)
    (par_speeds perp_speeds : list R) (method : pyobj) :
  validate.temp T_par = inr T_par' ->
  validate.temp T_perp = inr T_perp' ->
  raises (Hellinger_2016_body Coulomb_logarithm hyper2d T_par' T_perp' n_i ions
                              par_speeds perp_speeds method).
Proof.
  intros H1 H2. unfold Hellinger_2016_body.
  destruct (Req_dec_T (q_value T_par') 0); [apply raise_raises|].
  apply bind_raises. intros vpar0. apply bind_raises. intros vpar1.
  apply bind_raises. intros m0.
  rewrite (validated_temp_has_no_items T_perp T_perp' 1 H2).
  apply raise_raises.
Qed.

(** The call at lines 648-650 leaves [method] out. *)
Lemma Hellinger_2016_call_misses_method
    (Coulomb_logarithm : Quantity -> Quantity -> list Particle -> pyobj -> R)
    (T : Quantity) (n_i : argument) (ions : ions_arg) (par_speeds : list R) :
  call_Hellinger_2009 Coulomb_logarithm T n_i ions par_speeds None
  = inl (TypeError MissingArgument).
Proof. reflexivity. Qed.

(** C5.  For every combination of arguments, [Hellinger_2016] raises an
    exception; it never returns a timescale. *)
Theorem Hellinger_2016_always_raises :
  forall (Coulomb_logarithm : Quantity -> Quantity -> list Particle -> pyobj -> R)
         (hyper2d : R -> R -> R -> R -> R -> R)
         (T_par T_perp : Quantity) (n_i : argument) (ions : ions_arg)
         (par_speeds perp_speeds : list R) (method : pyobj),
    raises (Hellinger_2016 Coulomb_logarithm hyper2d T_par T_perp n_i ions
                           par_speeds perp_speeds method)
    /\ forall tau : R,
         Hellinger_2016 Coulomb_logarithm hyper2d T_par T_perp n_i ions
                        par_speeds perp_speeds method
         <> inr tau.
Proof.
  intros CL hyper2d T_par T_perp n_i ions par_speeds perp_speeds method.
  assert (H : raises (Hellinger_2016 CL hyper2d T_par T_perp n_i ions
                                     par_speeds perp_speeds method)).
  { unfold Hellinger_2016.
    destruct (validate.temp T_par) as [e | T_par'] eqn:H1;
      [exists e; reflexivity|].
    destruct (validate.temp T_perp) as [e | T_perp'] eqn:H2;
      [exists e; reflexivity|].
    cbn [bind]. do 4 (apply bind_raises; intro).
    destruct (validate.method method) as [e | m] eqn:Hm;
      [exists e; reflexivity|].
    cbn [bind]. apply (Hellinger_2016_body_raises CL hyper2d T_par T_perp); assumption. }
  split; [exact H|].
  intros tau Htau. destruct H as [e He]. rewrite He in Htau. discriminate.
Qed.

(** C10, as the code has it.  [validate.method] raises the [TypeError] of
    [isinstance(method, None)] for every input, so it returns neither
    [None] nor a method; every call of [Hellinger_2009] raises, and
    its outcome does not depend on the Coulomb logarithm, which is never
    computed. *)
Theorem validate_method_always_raises :
  (forall method : pyobj, validate.method method = inl (TypeError IsinstanceArg2))
  /\ (forall Coulomb_logarithm T n_i ions par_speeds method,
        raises (Hellinger_2009 Coulomb_logarithm T n_i ions par_speeds method))
  /\ (forall Coulomb_logarithm Coulomb_logarithm' T n_i ions par_speeds method,
        Hellinger_2009 Coulomb_logarithm T n_i ions par_speeds method
        = Hellinger_2009 Coulomb_logarithm' T n_i ions par_speeds method).
Proof.
  split; [exact validate_method_raises|]. split.
  - intros CL T n_i ions par_speeds method. unfold Hellinger_2009.
    do 4 (apply bind_raises; intro). rewrite validate_method_raises.
    apply raise_raises.
  - intros CL CL' T n_i ions par_speeds method. unfold Hellinger_2009.
    destruct (validate.temp T); [reflexivity|]. cbn [bind].
    destruct (validate.n_i n_i); [reflexivity|]. cbn [bind].
    destruct (validate.ions ions); [reflexivity|]. cbn [bind].
    destruct (validate.speeds par_speeds); [reflexivity|]. cbn [bind].
    rewrite validate_method_raises. reflexivity.
Qed.

(** C10, as it is stated, fails at the method ["classical"]:
    [validate.method] does not evaluate to [None] there, and
    [Hellinger_2009], called with arguments that pass the four checks before
    it, stops at the [TypeError] instead of calling the Coulomb logarithm
    with [None]. *)
Lemma validate_method_does_not_return_None :
  validate.method (PStr "classical") = inl (TypeError IsinstanceArg2)
  /\ validate.method (PStr "classical") <> inr PNone
  /\ Hellinger_2009 (fun _ _ _ _ => 10) (q_scalar 1000000)
                    (AQuantity (q_scalar 400000)) example_ions [500; 750]
                    (PStr "classical")
     = inl (TypeError IsinstanceArg2).
Proof.
  split; [reflexivity|]. split; [discriminate|].
  unfold Hellinger_2009.
  assert (HT : validate.temp (q_scalar 1000000) = inr (q_scalar 1000000)).
  { unfold validate.temp. simpl.
    destruct (Rlt_dec 0 (q_value (q_scalar 1000000))) as [_|N]; [reflexivity|].
    exfalso. apply N. unfold q_value, item. simpl. lra. }
  assert (Hn : validate.n_i (AQuantity (q_scalar 400000)) = inr (q_scalar 400000)).
  { unfold validate.n_i. simpl.
    destruct (Rlt_dec 0 _) as [_|N]; [reflexivity|].
    exfalso. apply N. unfold q_value, item. simpl. lra. }
  rewrite HT. cbn [bind]. rewrite Hn. reflexivity.
Qed.

(** * Further properties of [stix] *)

(** ** The result map *)

Section StixResult.

Variable plasma_frequency : R -> Particle -> R.
Variable gyrofrequency : R -> Particle -> R.
Variable eig : list R -> nat -> complex.

Lemma stix_core_unfold (B w : R) (species : list Particle) (densities theta : list R) :
  stix_core plasma_frequency gyrofrequency eig B w species densities theta
  = stix_solve eig w
      (stix_core_parameters plasma_frequency gyrofrequency B w species densities) theta.
Proof. reflexivity. Qed.

Lemma dict_set_table (f : R -> list complex) (seen : list R) (th : R) :
  dict_set (map (fun t => (t, f t)) seen) th (f th)
  = map (fun t => (t, f t)) (if in_dec Req_dec_T th seen then seen else seen ++ [th]).
Proof.
  induction seen as [|k seen IH]; simpl.
  - reflexivity.
  - destruct (Req_dec_T k th) as [E|N].
    + subst k. reflexivity.
    + rewrite IH. destruct (in_dec Req_dec_T th seen); reflexivity.
Qed.

Lemma table_of_seen_angles (f : R -> list complex) (theta : list R) :
  forall seen,
    fold_left (fun k th => dict_set k th (f th)) theta (map (fun th => (th, f th)) seen)
    = map (fun th => (th, f th))
          (fold_left (fun seen x => if in_dec Req_dec_T x seen then seen else seen ++ [x])
                     theta seen).
Proof.
  induction theta as [|t theta IH]; intros seen; simpl.
  - reflexivity.
  - rewrite (dict_set_table f). apply IH.
Qed.

(** X1.  The result of the solving loop is the table of the distinct
    supplied angles, in the order of their first appearance, each with the
    sorted roots of its own polynomial: a repeated angle adds nothing and
    changes nothing. *)
Theorem stix_solve_is_the_table_of_the_distinct_angles :
  forall (w : R) (p : stix_parameters) (theta : list R),
    stix_solve eig w p theta
    = map (fun th => (th, stix_entry eig w p th)) (first_occurrences theta).
Proof.
  intros w p theta. rewrite stix_solve_eq. unfold first_occurrences.
  change (@nil (R * list complex))
    with (map (fun th => (th, stix_entry eig w p th)) []).
  apply table_of_seen_angles.
Qed.

Lemma first_occurrences_spec (l : list R) :
  NoDup (first_occurrences l) /\ forall x, In x (first_occurrences l) <-> In x l.
Proof.
  unfold first_occurrences.
  assert (G : forall seen, NoDup seen ->
            let r := fold_left (fun seen x => if in_dec Req_dec_T x seen
                                              then seen else seen ++ [x]) l seen in
            NoDup r /\ forall x, In x r <-> In x seen \/ In x l).
  { induction l as [|y l IH]; intros seen Hs; simpl.
    - split; [exact Hs | intros x; tauto].
    - destruct (in_dec Req_dec_T y seen) as [Hin|Hout].
      + destruct (IH seen Hs) as [Hnd Hk]. split; [exact Hnd|].
        intros x. rewrite Hk. split; [tauto|]. intros [H | [<- | H]]; tauto.
      + assert (Hs' : NoDup (seen ++ [y])).
        { apply NoDup_app; [exact Hs | repeat constructor; intros [] |].
          intros x Hx [<- | []]. contradiction. }
        destruct (IH (seen ++ [y]) Hs') as [Hnd Hk]. split; [exact Hnd|].
        intros x. rewrite Hk, in_app_iff. simpl. tauto. }
  destruct (G [] (NoDup_nil _)) as [Hnd Hk]. split; [exact Hnd|].
  intros x. rewrite Hk. simpl. tauto.
Qed.

Lemma first_occurrences_NoDup (l : list R) : NoDup l -> first_occurrences l = l.
Proof.
  unfold first_occurrences.
  assert (G : forall seen, NoDup (seen ++ l) ->
            fold_left (fun seen x => if in_dec Req_dec_T x seen
                                     then seen else seen ++ [x]) l seen
            = seen ++ l).
  { induction l as [|y l IH]; intros seen H; simpl.
    - rewrite app_nil_r. reflexivity.
    - destruct (in_dec Req_dec_T y seen) as [Hin|Hout].
      + exfalso. apply NoDup_remove_2 in H. apply H. apply in_or_app. left. exact Hin.
      + rewrite IH; rewrite <- app_assoc; [reflexivity | exact H]. }
  intros H. apply (G [] H).
Qed.

(** X2.  When [stix] returns, the keys of the result are the supplied
    angles without repetition, every supplied angle is a key, and when the
    supplied angles are pairwise different the keys are the angles in the
    order they were given. *)
Theorem stix_keys_are_the_supplied_angles :
  forall (B : ndarray) (w : R) (a : ions_arg) (n_i theta : ndarray)
         (angles : list R) (k : dict (list complex)),
    stix_theta theta = inr angles ->
    stix plasma_frequency gyrofrequency eig B w a n_i theta = inr k ->
    NoDup (keys k)
    /\ (forall th, In th (keys k) <-> In th angles)
    /\ (length (keys k) <= length angles)%nat
    /\ (NoDup angles -> keys k = angles).
Proof.
  intros B w a n_i theta angles k Hth Hk. unfold stix in Hk.
  destruct (stix_ions a) as [|ions]; [discriminate|]. cbn [bind] in Hk.
  destruct (stix_n_i n_i (length ions)) as [|nvec]; [discriminate|]. cbn [bind] in Hk.
  destruct (stix_B B) as [|b]; [discriminate|]. cbn [bind] in Hk.
  destruct (stix_w w) as [|w']; [discriminate|]. cbn [bind] in Hk.
  rewrite Hth in Hk. cbn [bind] in Hk. injection Hk as <-.
  rewrite stix_core_unfold, stix_solve_eq.
  change (@nil (R * list complex))
    with (map (fun th => (th, stix_entry eig w'
                 (stix_core_parameters plasma_frequency gyrofrequency b w'
                    (stix_species ions) (stix_densities nvec ions)) th)) []).
  rewrite table_of_seen_angles. fold (first_occurrences angles).
  unfold keys. rewrite map_map. simpl. rewrite map_id.
  destruct (first_occurrences_spec angles) as [Hnd Hin].
  repeat split.
  - exact Hnd.
  - apply Hin.
  - apply Hin.
  - apply NoDup_incl_length; [exact Hnd | intros x Hx; apply Hin; exact Hx].
  - apply first_occurrences_NoDup.
Qed.

End StixResult.

(** ** When [stix] returns *)

Section StixReturns.

Variable plasma_frequency : R -> Particle -> R.
Variable gyrofrequency : R -> Particle -> R.
Variable eig : list R -> nat -> complex.

Lemma stix_accepts (B : ndarray) (w : R) (a : ions_arg) (n_i theta : ndarray)
    (ions : list Particle) (nvec angles : list R) (b : R) :
  stix_ions a = inr ions ->
  stix_n_i n_i (length ions) = inr nvec ->
  stix_B B = inr b ->
  0 < w ->
  stix_theta theta = inr angles ->
  stix plasma_frequency gyrofrequency eig B w a n_i theta
  = inr (stix_core plasma_frequency gyrofrequency eig b w
                   (stix_species ions) (stix_densities nvec ions) angles).
Proof.
  intros Hions Hn HB Hw Hth. unfold stix.
  rewrite Hions. cbn [bind]. rewrite Hn. cbn [bind]. rewrite HB. cbn [bind].
  unfold stix_w. destruct (Rle_dec w 0) as [H|_]; [lra|]. cbn [bind].
  rewrite Hth. reflexivity.
Qed.


End StixReturns.

Lemma stix_keys_are_the_supplied_angles_witness :
  keys (stix_core no_frequency no_frequency zero_eig (83 / 10 ^ 10) (1 / 1000)
                  (stix_species [H_plus; He_plus])
                  (stix_densities [400000; 200000] [H_plus; He_plus]) [0; 1])
  = [0; 1].
Proof.
  destruct (stix_keys_are_the_supplied_angles no_frequency no_frequency zero_eig
              (scalar (83 / 10 ^ 10)) (1 / 1000) example_ions example_n_i
              (array [0; 1]) [0; 1]
              (stix_core no_frequency no_frequency zero_eig (83 / 10 ^ 10) (1 / 1000)
                         (stix_species [H_plus; He_plus])
                         (stix_densities [400000; 200000] [H_plus; He_plus]) [0; 1]))
    as [_ [_ [_ H]]].
  - reflexivity.
  - apply (stix_accepts no_frequency no_frequency zero_eig _ _ _ _ _
             [H_plus; He_plus] [400000; 200000] [0; 1] (83 / 10 ^ 10));
      try reflexivity. lra.
  - apply H. constructor; [simpl; intros [E | []]; lra|].
    constructor; [simpl; tauto | constructor].
Defined.

(** ** The order of the roots *)

Lemma complex_leb_total (x y : complex) :
  complex_leb x y = false -> complex_leb y x = true.
Proof.
  unfold complex_leb.
  destruct (Rlt_dec (fst x) (fst y)) as [H1|H1]; [discriminate|].
  destruct (Rlt_dec (fst y) (fst x)) as [H2|H2]; [reflexivity|].
  destruct (Rle_dec (snd x) (snd y)) as [H3|H3]; [discriminate|].
  intros _. destruct (Rle_dec (snd y) (snd x)) as [H4|H4]; [reflexivity|].
  exfalso. lra.
Qed.

Lemma insert_sorted_perm (x : complex) (l : list complex) :
  Permutation (insert_sorted x l) (x :: l).
Proof.
  induction l as [|y l IH]; simpl.
  - apply Permutation_refl.
  - destruct (complex_leb x y).
    + apply Permutation_refl.
    + apply perm_trans with (y :: x :: l); [apply perm_skip; exact IH | apply perm_swap].
Qed.

Lemma sort_perm (l : list complex) : Permutation (sort l) l.
Proof.
  induction l as [|x l IH]; simpl.
  - apply Permutation_refl.
  - apply perm_trans with (x :: sort l);
      [apply insert_sorted_perm | apply perm_skip; exact IH].
Qed.

Lemma insert_sorted_sorted (x : complex) (l : list complex) :
  Sorted complex_le l -> Sorted complex_le (insert_sorted x l).
Proof.
  induction l as [|y l IH]; intros Hs; simpl.
  - repeat constructor.
  - destruct (complex_leb x y) eqn:E.
    + constructor; [exact Hs | constructor; exact E].
    + inversion Hs as [|? ? Hl Hhd]; subst.
      constructor; [apply IH; exact Hl|].
      destruct l as [|z l]; simpl.
      * constructor. apply complex_leb_total. exact E.
      * destruct (complex_leb x z); constructor.
        -- apply complex_leb_total. exact E.
        -- inversion Hhd; subst. assumption.
Qed.

Lemma sort_sorted (l : list complex) : Sorted complex_le (sort l).
Proof.
  induction l as [|x l IH]; simpl; [constructor | apply insert_sorted_sorted; exact IH].
Qed.

Section StixEntries.

Variable plasma_frequency : R -> Particle -> R.
Variable gyrofrequency : R -> Particle -> R.
Variable eig : list R -> nat -> complex.

(** X4.  Every array of the result is in ascending order, by real part
    and then by imaginary part, and holds exactly the roots [np.roots]
    reported for the polynomial of its angle. *)
Theorem stix_entries_are_sorted_roots :
  forall (B w : R) (species : list Particle) (densities theta : list R) (th : R),
    let p := stix_core_parameters plasma_frequency gyrofrequency B w species densities in
    let k := stix_core plasma_frequency gyrofrequency eig B w species densities theta in
    Sorted complex_le (dict_get k th)
    /\ (In th theta ->
        Permutation (dict_get k th)
          (roots eig [c_si_unitless / w * stix_A p th; 0;
                      c_si_unitless / w * stix_B_coefficient p th; 0; stix_C p th])).
Proof.
  intros B w species densities theta th p k. unfold k.
  rewrite stix_core_unfold, stix_solve_get. fold p.
  destruct (in_dec Req_dec_T th theta) as [Hin|Hout].
  - split; [apply sort_sorted | intros _; apply sort_perm].
  - split; [constructor | intros H; contradiction].
Qed.

End StixEntries.

Lemma stix_entries_are_sorted_roots_witness :
  Permutation
    (dict_get (stix_core no_frequency no_frequency zero_eig 0 1 [electron] [1] [0]) 0)
    (roots zero_eig
       [c_si_unitless / 1
        * stix_A (stix_core_parameters no_frequency no_frequency 0 1 [electron] [1]) 0;
        0;
        c_si_unitless / 1
        * stix_B_coefficient
            (stix_core_parameters no_frequency no_frequency 0 1 [electron] [1]) 0;
        0;
        stix_C (stix_core_parameters no_frequency no_frequency 0 1 [electron] [1]) 0]).
Proof.
  apply (stix_entries_are_sorted_roots no_frequency no_frequency zero_eig
           0 1 [electron] [1] [0] 0).
  left. reflexivity.
Defined.

(** ** The number of roots, and the root at a cutoff *)

Lemma roots_zero_at_cutoff (eig : list R -> nat -> complex) (a b : R) :
  a <> 0 -> In (0, 0) (roots eig [a; 0; b; 0; 0]).
Proof.
  intros Ha. unfold roots, nonzero, nonzero_from, is_zero.
  destruct (Req_dec_T a 0) as [E|_]; [contradiction|].
  destruct (Req_dec_T 0 0) as [_|N]; [|contradiction].
  destruct (Req_dec_T b 0); apply in_or_app; right; simpl; auto.
Qed.

Lemma stix_leading_coefficient (w a : R) :
  w <> 0 -> (c_si_unitless / w * a = 0 <-> a = 0).
Proof.
  intros Hw. split.
  - intros H. apply Rmult_integral in H. destruct H as [H|H]; [|exact H].
    exfalso. unfold Rdiv in H. apply Rmult_integral in H. destruct H as [H|H].
    + unfold c_si_unitless in H. lra.
    + apply (Rinv_neq_0_compat w Hw). exact H.
  - intros ->. ring.
Qed.

Section StixRootCount.

Variable plasma_frequency : R -> Particle -> R.
Variable gyrofrequency : R -> Particle -> R.
Variable eig : list R -> nat -> complex.


(** X6.  At a cutoff, where [P R L = 0], an angle whose leading
    coefficient is not zero has the wavenumber 0 among its roots. *)
Theorem stix_cutoff_has_the_root_zero :
  forall (B w : R) (species : list Particle) (densities theta : list R) (th : R),
    let p := stix_core_parameters plasma_frequency gyrofrequency B w species densities in
    let k := stix_core plasma_frequency gyrofrequency eig B w species densities theta in
    w <> 0 -> In th theta -> stix_A p th <> 0 ->
    par_P p * par_R p * par_L p = 0 ->
    In (0, 0) (dict_get k th).
Proof.
  intros B w species densities theta th p k Hw Hin HA HC. unfold k.
  rewrite stix_core_unfold, stix_solve_get. fold p.
  destruct (in_dec Req_dec_T th theta) as [_|N]; [|contradiction].
  unfold stix_entry.
  apply (Permutation_in _ (Permutation_sym (sort_perm _))).
  unfold stix_C. rewrite HC. apply roots_zero_at_cutoff.
  intros H. destruct (stix_leading_coefficient w (stix_A p th) Hw) as [Hl _].
  exact (HA (Hl H)).
Qed.

End StixRootCount.



Lemma resonant_parameters :
  stix_core_parameters (fun _ _ => 1) (fun _ _ => 1) 0 1 [electron] [1]
  = mk_parameters (1 / 2) 0 (1 / 2) 1 0.
Proof.
  unfold stix_core_parameters, stix_SPDRL, stix_SPD. simpl. f_equal; field.
Qed.

Lemma stix_cutoff_has_the_root_zero_witness :
  In (0, 0) (dict_get (stix_core (fun _ _ => 1) (fun _ _ => 1) zero_eig 0 1
                                 [electron] [1] [PI / 2]) (PI / 2)).
Proof.
  apply (stix_cutoff_has_the_root_zero (fun _ _ => 1) (fun _ _ => 1) zero_eig
           0 1 [electron] [1] [PI / 2] (PI / 2) R1_neq_R0 (or_introl eq_refl)).
  - rewrite resonant_parameters. unfold stix_A. simpl.
    rewrite sin_PI2, cos_PI2. lra.
  - rewrite resonant_parameters. simpl. ring.
Defined.

(** ** Angles *)

Section StixAngles.

Variable plasma_frequency : R -> Particle -> R.
Variable gyrofrequency : R -> Particle -> R.
Variable eig : list R -> nat -> complex.

Lemma stix_entry_shift (w : R) (p : stix_parameters) (th : R) :
  stix_entry eig w p (th + PI) = stix_entry eig w p th.
Proof.
  unfold stix_entry, stix_A, stix_B_coefficient, stix_C.
  rewrite neg_sin, neg_cos.
  replace ((- sin th) ^ 2) with (sin th ^ 2) by ring.
  replace ((- cos th) ^ 2) with (cos th ^ 2) by ring. reflexivity.
Qed.

(** X7.  Turning every angle by half a turn leaves the arrays as they
    are: what the result for the angles [theta + pi] holds under
    [th + pi] is what the result for the angles [theta] holds under [th]. *)
Theorem stix_half_turn_symmetry :
  forall (B w : R) (species : list Particle) (densities theta : list R) (th : R),
    dict_get (stix_core plasma_frequency gyrofrequency eig B w species densities
                        (map (fun t => t + PI) theta)) (th + PI)
    = dict_get (stix_core plasma_frequency gyrofrequency eig B w species densities
                          theta) th.
Proof.
  intros B w species densities theta th. unfold stix_core.
  rewrite !stix_solve_get, stix_entry_shift.
  destruct (in_dec Req_dec_T (th + PI) (map (fun t => t + PI) theta)) as [Hn|Hn];
    destruct (in_dec Req_dec_T th theta) as [Hp|Hp]; try reflexivity.
  - exfalso. apply Hp. apply in_map_iff in Hn. destruct Hn as [x [Hx Hin]].
    assert (x = th) by lra. subst x. exact Hin.
  - exfalso. apply Hn. apply (in_map (fun t => t + PI)). exact Hp.
Qed.

(** X8.  Where no species oscillates (every plasma frequency is 0) the
    scalars are those of the vacuum, [S = P = R = L = 1] and [D = 0], and
    the coefficients are [A = 1], [B = -2] and [C = 1] at every angle, so
    the roots do not depend on the angle. *)
Theorem stix_vacuum :
  forall (w : R) (wps wcs : list R),
    Forall (fun wp => wp = 0) wps ->
    stix_SPDRL w wps wcs = mk_parameters 1 1 0 1 1
    /\ forall th th' : R,
         stix_A (stix_SPDRL w wps wcs) th = 1
         /\ stix_B_coefficient (stix_SPDRL w wps wcs) th = -2
         /\ stix_C (stix_SPDRL w wps wcs) th = 1
         /\ stix_entry eig w (stix_SPDRL w wps wcs) th
            = stix_entry eig w (stix_SPDRL w wps wcs) th'.
Proof.
  intros w wps wcs Hz.
  assert (Hnth : forall i, nth i wps 0 = 0).
  { intros i. destruct (Nat.lt_ge_cases i (length wps)) as [Hi|Hi].
    - rewrite Forall_forall in Hz. apply Hz. apply nth_In. exact Hi.
    - apply nth_overflow. exact Hi. }
  assert (E : stix_SPDRL w wps wcs = mk_parameters 1 1 0 1 1).
  { unfold stix_SPDRL, stix_SPD. rewrite stix_SPD_loop.
    assert (Z : forall f : R -> R -> R -> R,
               (forall wc, f w 0 wc = 0) ->
               sum (map (fun i => f w (nth i wps 0) (nth i wcs 0))
                        (seq 0 (length wps))) = 0).
    { intros f Hf. induction (seq 0 (length wps)) as [|i l IH]; simpl.
      - reflexivity.
      - rewrite Hnth, Hf, IH. ring. }
    rewrite (Z S_term), (Z P_term), (Z D_term);
      try (intros wc; unfold S_term, P_term, D_term, Rdiv; ring).
    f_equal; ring. }
  split; [exact E|]. intros th th'.
  assert (HA : forall t, stix_A (stix_SPDRL w wps wcs) t = 1).
  { intros t. rewrite E. unfold stix_A. simpl.
    pose proof (sin2_cos2 t) as H. unfold Rsqr in H. lra. }
  assert (HB : forall t, stix_B_coefficient (stix_SPDRL w wps wcs) t = -2).
  { intros t. rewrite E. unfold stix_B_coefficient. simpl.
    pose proof (sin2_cos2 t) as H. unfold Rsqr in H. lra. }
  assert (HC : forall t, stix_C (stix_SPDRL w wps wcs) t = 1).
  { intros t. rewrite E. unfold stix_C. simpl. ring. }
  repeat split; auto.
  unfold stix_entry. rewrite !HA, !HB, !HC. reflexivity.
Qed.

End StixAngles.

Lemma stix_vacuum_witness :
  stix_SPDRL 1 [0; 0] [3; 4] = mk_parameters 1 1 0 1 1.
Proof.
  apply (stix_vacuum zero_eig 1 [0; 0] [3; 4]).
  repeat constructor.
Defined.

(** ** Species and densities *)

Lemma sum_Permutation (l l' : list R) : Permutation l l' -> sum l = sum l'.
Proof.
  induction 1; simpl; try lra.
Qed.

Section StixSpecies.

Variable plasma_frequency : R -> Particle -> R.
Variable gyrofrequency : R -> Particle -> R.
Variable eig : list R -> nat -> complex.

(** X9.  The order of the species does not matter: two species lists that
    pair the same species with the same densities, in any order, give the
    same scalars and the same result map. *)
Theorem stix_species_order_is_irrelevant :
  forall (B w : R) (species species' : list Particle)
         (densities densities' theta : list R),
    Permutation (combine species densities) (combine species' densities') ->
    stix_core_parameters plasma_frequency gyrofrequency B w species densities
    = stix_core_parameters plasma_frequency gyrofrequency B w species' densities'
    /\ stix_core plasma_frequency gyrofrequency eig B w species densities theta
       = stix_core plasma_frequency gyrofrequency eig B w species' densities' theta.
Proof.
  intros B w species species' densities densities' theta Hp.
  assert (E : stix_core_parameters plasma_frequency gyrofrequency B w species densities
              = stix_core_parameters plasma_frequency gyrofrequency B w species'
                                     densities').
  { unfold stix_core_parameters, stix_SPDRL. rewrite !stix_SPD_sums.
    set (fS := fun s : Particle * R =>
                 S_term w (let '(par, dens) := s in plasma_frequency dens par)
                        (let '(par, _) := s in gyrofrequency B par)).
    set (fP := fun s : Particle * R =>
                 P_term w (let '(par, dens) := s in plasma_frequency dens par)
                        (let '(par, _) := s in gyrofrequency B par)).
    set (fD := fun s : Particle * R =>
                 D_term w (let '(par, dens) := s in plasma_frequency dens par)
                        (let '(par, _) := s in gyrofrequency B par)).
    rewrite (sum_Permutation _ _ (Permutation_map fS Hp)).
    rewrite (sum_Permutation _ _ (Permutation_map fP Hp)).
    rewrite (sum_Permutation _ _ (Permutation_map fD Hp)).
    reflexivity. }
  split; [exact E|]. rewrite !stix_core_unfold, E. reflexivity.
Qed.

End StixSpecies.

Lemma stix_species_order_is_irrelevant_witness :
  stix_core_parameters no_frequency no_frequency 0 1 [H_plus; electron] [2; 3]
  = stix_core_parameters no_frequency no_frequency 0 1 [electron; H_plus] [3; 2].
Proof.
  apply (stix_species_order_is_irrelevant no_frequency no_frequency zero_eig 0 1
           [H_plus; electron] [electron; H_plus] [2; 3] [3; 2] []).
  simpl. apply perm_swap.
Defined.

(** X10.  When the accepted ions come with positive densities, one per
    ion, every density of the species list is positive; with at least one
    ion, so is the density of the electron. *)
Theorem stix_densities_are_positive :
  forall (a : ions_arg) (ions : list Particle) (nvec : list R),
    stix_ions a = inr ions ->
    length nvec = length ions ->
    Forall (fun n => 0 < n) nvec ->
    ions <> [] ->
    Forall (fun n => 0 < n) (stix_densities nvec ions)
    /\ 0 < last (stix_densities nvec ions) 0.
Proof.
  intros a ions nvec Hions Hlen Hpos Hne.
  apply stix_ions_ok in Hions. destruct Hions as [_ Hall].
  assert (Hsum : forall (l : list Particle) (ns : list R),
             forallb positive_ion l = true -> length ns = length l ->
             Forall (fun n => 0 < n) ns -> l <> [] ->
             0 < sum (map (fun '(n, ion) => n * IZR (charge_number ion)) (combine ns l))).
  { induction l as [|ion l IH]; intros [|n ns] Hl Hn Hp Hnil; simpl in *;
      try discriminate; try contradiction.
    apply andb_prop in Hl. destruct Hl as [Hion Hl].
    unfold positive_ion in Hion. apply andb_prop in Hion. destruct Hion as [_ Hz].
    apply Z.ltb_lt in Hz. apply IZR_lt in Hz.
    inversion Hp as [|? ? Hn0 Hns]; subst.
    assert (0 < n * IZR (charge_number ion)) by (apply Rmult_lt_0_compat; assumption).
    destruct l as [|ion' l'].
    - destruct ns; [simpl; lra | discriminate].
    - assert (0 < sum (map (fun '(n0, ion0) => n0 * IZR (charge_number ion0))
                           (combine ns (ion' :: l')))).
      { apply IH; auto. discriminate. }
      lra. }
  specialize (Hsum ions nvec Hall Hlen Hpos Hne).
  unfold stix_densities. split.
  - apply Forall_app. split; [exact Hpos | constructor; [exact Hsum | constructor]].
  - rewrite last_last. exact Hsum.
Qed.

Lemma stix_densities_are_positive_witness :
  0 < last (stix_densities [400000; 200000] [H_plus; He_plus]) 0.
Proof.
  apply (stix_densities_are_positive example_ions [H_plus; He_plus] [400000; 200000]).
  - reflexivity.
  - reflexivity.
  - repeat constructor; lra.
  - discriminate.
Defined.

Section StixShapes.

Variable plasma_frequency : R -> Particle -> R.
Variable gyrofrequency : R -> Particle -> R.
Variable eig : list R -> nat -> complex.

Lemma squeeze_ones (sh : list nat) (d : list R) :
  Forall (fun n => n = 1%nat) sh -> squeeze (mk_ndarray sh d) = mk_ndarray [] d.
Proof.
  unfold squeeze. simpl. intros H. f_equal.
  induction H as [|n sh Hn _ IH]; simpl; [reflexivity|].
  subst n. simpl. exact IH.
Qed.

(** X11.  A field or an angle given as an array with one element, of any
    number of axes of length one, is the same to [stix] as the single
    value. *)
Theorem stix_one_element_arrays_are_single_values :
  forall (shape_B shape_theta : list nat) (b t w : R) (a : ions_arg) (n_i : ndarray),
    Forall (fun n => n = 1%nat) shape_B ->
    Forall (fun n => n = 1%nat) shape_theta ->
    stix plasma_frequency gyrofrequency eig (mk_ndarray shape_B [b]) w a n_i
         (mk_ndarray shape_theta [t])
    = stix plasma_frequency gyrofrequency eig (scalar b) w a n_i (scalar t).
Proof.
  intros shape_B shape_theta b t w a n_i HB Ht.
  unfold stix, stix_B, stix_theta.
  rewrite (squeeze_ones shape_B [b] HB), (squeeze_ones shape_theta [t] Ht).
  reflexivity.
Qed.

(** X12.  The density is not treated that way: with accepted ions whose
    number is not 1, a one-dimensional density array with one element is
    refused with the shape error, although the single value is broadcast.
    The branch of line 178 that repeats a one-element density is therefore
    taken for one ion only, where it changes nothing. *)
Theorem stix_refuses_a_one_element_density :
  forall (B : ndarray) (w n : R) (a : ions_arg) (theta : ndarray),
    forallb positive_ion (ParticleList a) = true ->
    length (ParticleList a) <> 1%nat ->
    stix plasma_frequency gyrofrequency eig B w a (array [n]) theta
    = inl (ValueError Shape)
    /\ stix_n_i (scalar n) (length (ParticleList a))
       = inr (repeat n (length (ParticleList a))).
Proof.
  intros B w n a theta Hall Hlen. split; [|reflexivity].
  unfold stix, stix_ions. rewrite Hall. cbn [negb bind ret].
  unfold stix_n_i, array, ndim, size. simpl.
  destruct (length (ParticleList a)) as [|[|m]]; try reflexivity. contradiction.
Qed.

End StixShapes.

Lemma stix_one_element_arrays_are_single_values_witness :
  stix no_frequency no_frequency zero_eig (mk_ndarray [1; 1]%nat [5]) 1
       example_ions example_n_i (mk_ndarray [1]%nat [0])
  = stix no_frequency no_frequency zero_eig (scalar 5) 1
         example_ions example_n_i (scalar 0).
Proof.
  apply (stix_one_element_arrays_are_single_values no_frequency no_frequency zero_eig
           [1; 1]%nat [1]%nat 5 0 1 example_ions example_n_i);
    repeat constructor.
Defined.

Lemma stix_refuses_a_one_element_density_witness :
  stix no_frequency no_frequency zero_eig (scalar 5) 1 example_ions
       (array [400000]) (scalar 0)
  = inl (ValueError Shape).
Proof.
  apply (stix_refuses_a_one_element_density no_frequency no_frequency zero_eig
           (scalar 5) 1 400000 example_ions (scalar 0)).
  - reflexivity.
  - simpl. lia.
Defined.

(** ** The order of the checks in [stix] *)

Section StixErrors.

Variable plasma_frequency : R -> Particle -> R.
Variable gyrofrequency : R -> Particle -> R.
Variable eig : list R -> nat -> complex.

(** X13.  Once the species and the density have been accepted, a field
    that keeps an axis after the squeeze ends [stix] with the shape error,
    and with an accepted field a frequency that is not positive ends it
    with the sign error, whatever the angle is. *)
Theorem stix_field_and_frequency_errors :
  forall (B : ndarray) (w : R) (a : ions_arg) (n_i theta : ndarray)
         (ions : list Particle) (nvec : list R),
    stix_ions a = inr ions ->
    stix_n_i n_i (length ions) = inr nvec ->
    (ndim (squeeze B) <> 0%nat ->
     stix plasma_frequency gyrofrequency eig B w a n_i theta = inl (ValueError Shape))
    /\ (ndim (squeeze B) = 0%nat -> w <= 0 ->
        stix plasma_frequency gyrofrequency eig B w a n_i theta = inl (ValueError Sign)).
Proof.
  intros B w a n_i theta ions nvec Hions Hn. unfold stix.
  rewrite Hions. cbn [bind]. rewrite Hn. cbn [bind]. unfold stix_B. split.
  - intros HB. apply Nat.eqb_neq in HB. rewrite HB. reflexivity.
  - intros HB Hw. rewrite HB. cbn [Nat.eqb negb bind ret].
    unfold stix_w. destruct (Rle_dec w 0) as [_|N]; [reflexivity | contradiction].
Qed.

End StixErrors.

Lemma stix_field_and_frequency_errors_witness :
  stix no_frequency no_frequency zero_eig (array [1; 2]) 1 example_ions example_n_i
       (scalar 0)
  = inl (ValueError Shape)
  /\ stix no_frequency no_frequency zero_eig (scalar 1) (-1) example_ions example_n_i
          (scalar 0)
     = inl (ValueError Sign).
Proof.
  split.
  - apply (stix_field_and_frequency_errors no_frequency no_frequency zero_eig
             (array [1; 2]) 1 example_ions example_n_i (scalar 0)
             [H_plus; He_plus] [400000; 200000]); try reflexivity.
    simpl. discriminate.
  - apply (stix_field_and_frequency_errors no_frequency no_frequency zero_eig
             (scalar 1) (-1) example_ions example_n_i (scalar 0)
             [H_plus; He_plus] [400000; 200000]); try reflexivity.
    lra.
Defined.

(** * Further properties of the timescales *)

(** ** The validators *)

(** X14.  What [validate.n_i] returns is the squeezed argument: a
    [Quantity] with no axis, a number for a value, and that value, which
    is the value of the argument, positive. *)
Theorem validate_n_i_returns_a_positive_scalar :
  forall (n_i : argument) (q : Quantity),
    validate.n_i n_i = inr q ->
    exists q0, n_i = AQuantity q0
               /\ q = mk_Quantity (squeeze (q_array q0)) (q_is_number q0)
               /\ shape (q_array q) = []
               /\ q_is_number q = true
               /\ q_value q = q_value q0
               /\ 0 < q_value q.
Proof.
  intros [|q0] q; simpl; [discriminate|].
  unfold ndim. simpl.
  destruct (filter (fun d => negb (d =? 1)%nat) (shape (q_array q0))) as [|d sh] eqn:Hs;
    simpl; [|discriminate].
  destruct (q_is_number q0) eqn:Hnum; simpl; [|discriminate].
  destruct (Rlt_dec 0 _) as [Hpos|]; [|discriminate].
  intros H. injection H as <-. exists q0. simpl. rewrite Hs.
  repeat split; auto. rewrite Hnum. reflexivity.
Qed.

Lemma validate_n_i_returns_a_positive_scalar_witness :
  exists q0, AQuantity (mk_Quantity (mk_ndarray [1; 1]%nat [400000]) true) = AQuantity q0
             /\ mk_Quantity (scalar 400000) true
                = mk_Quantity (squeeze (q_array q0)) (q_is_number q0)
             /\ shape (q_array (mk_Quantity (scalar 400000) true)) = []
             /\ q_is_number (mk_Quantity (scalar 400000) true) = true
             /\ q_value (mk_Quantity (scalar 400000) true) = q_value q0
             /\ 0 < q_value (mk_Quantity (scalar 400000) true).
Proof.
  apply (validate_n_i_returns_a_positive_scalar
           (AQuantity (mk_Quantity (mk_ndarray [1; 1]%nat [400000]) true))
           (mk_Quantity (scalar 400000) true)).
  unfold validate.n_i. simpl.
  destruct (Rlt_dec 0 _) as [_|N]; [reflexivity|].
  exfalso. apply N. unfold q_value, item. simpl. lra.
Defined.

(** X15.  The two scalar validators disagree on a one-element array:
    [validate.temp], which does not squeeze, refuses it with the shape
    error, and [validate.n_i], which squeezes, accepts it when the element
    is a positive number. *)
Theorem temp_refuses_what_n_i_accepts :
  forall x : R,
    0 < x ->
    validate.temp (mk_Quantity (array [x]) true) = inl (ValueError Shape)
    /\ validate.n_i (AQuantity (mk_Quantity (array [x]) true))
       = inr (mk_Quantity (scalar x) true).
Proof.
  intros x Hx. split; [reflexivity|].
  unfold validate.n_i. simpl.
  destruct (Rlt_dec 0 _) as [_|N]; [reflexivity|].
  exfalso. apply N. unfold q_value, item. simpl. exact Hx.
Qed.

Lemma temp_refuses_what_n_i_accepts_witness :
  validate.temp (mk_Quantity (array [300]) true) = inl (ValueError Shape)
  /\ validate.n_i (AQuantity (mk_Quantity (array [300]) true))
     = inr (mk_Quantity (scalar 300) true).
Proof.
  apply (temp_refuses_what_n_i_accepts 300). lra.
Defined.

Lemma positive_ions_are_charged (l : list Particle) :
  forallb positive_ion l = true -> forallb validate.charged_ion l = true.
Proof.
  induction l as [|x l IH]; simpl; [reflexivity|]. intros H.
  apply andb_prop in H. destruct H as [Hx Hl]. rewrite (IH Hl), andb_true_r.
  unfold positive_ion in Hx. unfold validate.charged_ion.
  apply andb_prop in Hx. destruct Hx as [-> Hz]. simpl.
  apply Z.ltb_lt in Hz. apply Z.ltb_lt. lia.
Qed.

(** X16.  [validate.ions] returns exactly for a pair of charged ions, and
    then it returns the pair; so a single particle is always refused, and
    every pair of ions that [stix] accepts is accepted. *)
Theorem validate_ions_accepts_exactly_charged_pairs :
  forall (a : ions_arg),
    (forall l, validate.ions a = inr l
               <-> (l = ParticleList a
                    /\ forallb validate.charged_ion l = true
                    /\ length l = 2%nat))
    /\ (forall p, validate.ions (OneParticle p) = inl (ValueError InvalidSpecies))
    /\ (forall l, stix_ions a = inr l -> length l = 2%nat -> validate.ions a = inr l).
Proof.
  intros a.
  assert (Hiff : forall l, validate.ions a = inr l
                 <-> (l = ParticleList a
                      /\ forallb validate.charged_ion l = true
                      /\ length l = 2%nat)).
  { intros l. unfold validate.ions.
    destruct (forallb validate.charged_ion (ParticleList a)) eqn:Hc; simpl.
    - destruct (length (ParticleList a) =? 2)%nat eqn:Hl; simpl.
      + apply Nat.eqb_eq in Hl. split.
        * intros H. injection H as <-. auto.
        * intros [-> _]. reflexivity.
      + apply Nat.eqb_neq in Hl. split; [discriminate|].
        intros [-> [_ H]]. contradiction.
    - split; [discriminate|]. intros [-> [H _]]. rewrite Hc in H. discriminate. }
  split; [exact Hiff|]. split.
  - intros p. unfold validate.ions. simpl.
    destruct (validate.charged_ion p); reflexivity.
  - intros l Hs Hlen. apply Hiff. apply stix_ions_ok in Hs. destruct Hs as [-> Hpos].
    repeat split; [|exact Hlen]. apply positive_ions_are_charged. exact Hpos.
Qed.

Lemma validate_ions_accepts_exactly_charged_pairs_witness :
  validate.ions example_ions = inr [H_plus; He_plus].
Proof.
  apply (validate_ions_accepts_exactly_charged_pairs example_ions); reflexivity.
Defined.

Lemma validate_n_i_again (n_i : argument) (q : Quantity) :
  validate.n_i n_i = inr q -> validate.n_i (AQuantity q) = inr q.
Proof.
  destruct n_i as [|q0]; simpl; [discriminate|].
  unfold ndim. simpl.
  destruct (filter (fun d => negb (d =? 1)%nat) (shape (q_array q0))) as [|d sh] eqn:Hs;
    simpl; [|discriminate].
  destruct (q_is_number q0) eqn:Hnum; simpl; [|discriminate].
  destruct (Rlt_dec 0 _) as [Hpos|]; [|discriminate].
  intros H. injection H as <-. unfold squeeze. simpl. rewrite Hs. simpl.
  destruct (Rlt_dec 0 _) as [_|N]; [reflexivity|].
  exfalso. apply N. unfold squeeze in Hpos. simpl in Hpos. rewrite Hs in Hpos.
  exact Hpos.
Qed.

Lemma validate_ions_again (a : ions_arg) (l : list Particle) :
  validate.ions a = inr l -> validate.ions (Particles l) = inr l.
Proof.
  unfold validate.ions. simpl.
  destruct (forallb validate.charged_ion (ParticleList a)) eqn:Hc; simpl; [|discriminate].
  destruct (length (ParticleList a) =? 2)%nat eqn:Hl; simpl; [|discriminate].
  intros H. injection H as <-. rewrite Hc, Hl. reflexivity.
Qed.

(** X17.  Validating what a validator has returned succeeds and returns
    it again: this is what happens to the arguments [Hellinger_2010] and
    [Hellinger_2016] hand on to [Hellinger_2009]. *)
Theorem validators_are_idempotent :
  (forall T T', validate.temp T = inr T' -> validate.temp T' = inr T')
  /\ (forall n_i q, validate.n_i n_i = inr q -> validate.n_i (AQuantity q) = inr q)
  /\ (forall a l, validate.ions a = inr l -> validate.ions (Particles l) = inr l)
  /\ (forall s s', validate.speeds s = inr s' -> validate.speeds s' = inr s').
Proof.
  split; [|split; [|split]].
  - intros T T' H. destruct (validate_temp_scalar T T' H) as [-> _]. exact H.
  - exact validate_n_i_again.
  - exact validate_ions_again.
  - intros s s'. unfold validate.speeds.
    destruct (length s =? 2)%nat eqn:E; simpl; [|discriminate].
    intros H. injection H as <-. rewrite E. reflexivity.
Qed.

Lemma validators_are_idempotent_witness :
  validate.ions (Particles [H_plus; He_plus]) = inr [H_plus; He_plus].
Proof.
  apply (proj1 (proj2 (proj2 validators_are_idempotent)) example_ions).
  reflexivity.
Defined.

(** ** The timescale functions *)

Section TimescaleOutcomes.

Variable Coulomb_logarithm : Quantity -> Quantity -> list Particle -> pyobj -> R.
Variable gh : R -> R -> R -> R -> R.
Variable hyper2d : R -> R -> R -> R -> R -> R.

Lemma validate_temp_errors (T : Quantity) (e : exn) :
  validate.temp T = inl e -> validation_error e = true.
Proof.
  unfold validate.temp.
  destruct (ndim (q_array T) =? 0)%nat; simpl;
    [|intros H; injection H as <-; reflexivity].
  destruct (q_is_number T); simpl; [|intros H; injection H as <-; reflexivity].
  destruct (Rlt_dec 0 (q_value T)); [discriminate|].
  intros H. injection H as <-. reflexivity.
Qed.

Lemma validate_n_i_errors (n_i : argument) (e : exn) :
  validate.n_i n_i = inl e -> validation_error e = true.
Proof.
  destruct n_i as [|q]; simpl; [intros H; injection H as <-; reflexivity|].
  destruct (ndim (squeeze (q_array q)) =? 0)%nat; simpl;
    [|intros H; injection H as <-; reflexivity].
  destruct (q_is_number q); simpl; [|intros H; injection H as <-; reflexivity].
  destruct (Rlt_dec 0 _); [discriminate|].
  intros H. injection H as <-. reflexivity.
Qed.

Lemma validate_ions_errors (a : ions_arg) (e : exn) :
  validate.ions a = inl e -> validation_error e = true.
Proof.
  unfold validate.ions.
  destruct (forallb validate.charged_ion (ParticleList a)); simpl;
    [|intros H; injection H as <-; reflexivity].
  destruct (length (ParticleList a) =? 2)%nat; simpl; [discriminate|].
  intros H. injection H as <-. reflexivity.
Qed.

Lemma validate_speeds_errors (s : list R) (e : exn) :
  validate.speeds s = inl e -> validation_error e = true.
Proof.
  unfold validate.speeds. destruct (length s =? 2)%nat; simpl; [discriminate|].
  intros H. injection H as <-. reflexivity.
Qed.

Lemma Hellinger_2009_outcome (T : Quantity) (n_i : argument) (ions : ions_arg)
    (par_speeds : list R) (method : pyobj) :
  exists e, Hellinger_2009 Coulomb_logarithm T n_i ions par_speeds method = inl e
            /\ validation_error e = true.
Proof.
  unfold Hellinger_2009.
  destruct (validate.temp T) as [e|T'] eqn:H1;
    [exists e; split; [reflexivity | apply (validate_temp_errors T e H1)]|].
  cbn [bind].
  destruct (validate.n_i n_i) as [e|q] eqn:H2;
    [exists e; split; [reflexivity | apply (validate_n_i_errors n_i e H2)]|].
  cbn [bind].
  destruct (validate.ions ions) as [e|l] eqn:H3;
    [exists e; split; [reflexivity | apply (validate_ions_errors ions e H3)]|].
  cbn [bind].
  destruct (validate.speeds par_speeds) as [e|s] eqn:H4;
    [exists e; split; [reflexivity | apply (validate_speeds_errors par_speeds e H4)]|].
  cbn [bind]. rewrite validate_method_raises.
  exists (TypeError IsinstanceArg2). split; reflexivity.
Qed.

Lemma Hellinger_2010_outcome (T_par T_perp : Quantity) (n_i : argument)
    (ions : ions_arg) (par_speeds : list R) (method : pyobj) :
  exists e, Hellinger_2010 Coulomb_logarithm gh T_par T_perp n_i ions par_speeds method
            = inl e
            /\ validation_error e = true.
Proof.
  unfold Hellinger_2010.
  destruct (validate.temp T_par) as [e|T_par'] eqn:H1;
    [exists e; split; [reflexivity | apply (validate_temp_errors T_par e H1)]|].
  cbn [bind].
  destruct (validate.temp T_perp) as [e|T_perp'] eqn:H1';
    [exists e; split; [reflexivity | apply (validate_temp_errors T_perp e H1')]|].
  cbn [bind].
  destruct (validate.n_i n_i) as [e|q] eqn:H2;
    [exists e; split; [reflexivity | apply (validate_n_i_errors n_i e H2)]|].
  cbn [bind].
  destruct (validate.ions ions) as [e|l] eqn:H3;
    [exists e; split; [reflexivity | apply (validate_ions_errors ions e H3)]|].
  cbn [bind].
  destruct (validate.speeds par_speeds) as [e|s] eqn:H4;
    [exists e; split; [reflexivity | apply (validate_speeds_errors par_speeds e H4)]|].
  cbn [bind].
  destruct (Req_dec_T (q_value T_par') 0) as [E|_].
  - exfalso. apply validate_temp_scalar in H1. destruct H1 as [_ [_ Hpos]]. lra.
  - unfold call_Hellinger_2009.
    destruct (Hellinger_2009_outcome
                (q_scalar ((2 * q_value T_perp' + q_value T_par') / 3))
                (AQuantity q) (Particles l) s method) as [e [He Hv]].
    rewrite He. exists e. split; [reflexivity | exact Hv].
Qed.

Lemma Hellinger_2016_outcome (T_par T_perp : Quantity) (n_i : argument)
    (ions : ions_arg) (par_speeds perp_speeds : list R) (method : pyobj) :
  exists e, Hellinger_2016 Coulomb_logarithm hyper2d T_par T_perp n_i ions
                           par_speeds perp_speeds method = inl e
            /\ validation_error e = true.
Proof.
  unfold Hellinger_2016.
  destruct (validate.temp T_par) as [e|T_par'] eqn:H1;
    [exists e; split; [reflexivity | apply (validate_temp_errors T_par e H1)]|].
  cbn [bind].
  destruct (validate.temp T_perp) as [e|T_perp'] eqn:H1';
    [exists e; split; [reflexivity | apply (validate_temp_errors T_perp e H1')]|].
  cbn [bind].
  destruct (validate.n_i n_i) as [e|q] eqn:H2;
    [exists e; split; [reflexivity | apply (validate_n_i_errors n_i e H2)]|].
  cbn [bind].
  destruct (validate.ions ions) as [e|l] eqn:H3;
    [exists e; split; [reflexivity | apply (validate_ions_errors ions e H3)]|].
  cbn [bind].
  destruct (validate.speeds par_speeds) as [e|s] eqn:H4;
    [exists e; split; [reflexivity | apply (validate_speeds_errors par_speeds e H4)]|].
  cbn [bind].
  destruct (validate.speeds perp_speeds) as [e|s'] eqn:H5;
    [exists e; split; [reflexivity | apply (validate_speeds_errors perp_speeds e H5)]|].
  cbn [bind]. rewrite validate_method_raises.
  exists (TypeError IsinstanceArg2). split; reflexivity.
Qed.

(** X18.  [Hellinger_2010] never returns a timescale either: every call
    of it raises, at the latest inside [Hellinger_2009]. *)
Theorem Hellinger_2010_always_raises :
  forall (T_par T_perp : Quantity) (n_i : argument) (ions : ions_arg)
         (par_speeds : list R) (method : pyobj),
    raises (Hellinger_2010 Coulomb_logarithm gh T_par T_perp n_i ions
                           par_speeds method).
Proof.
  intros T_par T_perp n_i ions par_speeds method.
  destruct (Hellinger_2010_outcome T_par T_perp n_i ions par_speeds method)
    as [e [He _]].
  exists e. exact He.
Qed.

(** X19.  For speeds given as one-dimensional [Quantity] arrays, the
    exception that ends a call of [Hellinger_2009], [Hellinger_2010] or
    [Hellinger_2016] is always one of the validators:
    a shape, sign, type or species error, or the [TypeError] of
    [isinstance].  The zero-temperature error of lines 474 and 632, the
    indexing error of [T_perp[1]] and the missing-argument error of line
    648 are never what the caller sees. *)
Theorem timescale_errors_come_from_the_validators :
  forall e : exn,
    ((exists T n_i ions par_speeds method,
        Hellinger_2009 Coulomb_logarithm T n_i ions par_speeds method = inl e)
     \/ (exists T_par T_perp n_i ions par_speeds method,
           Hellinger_2010 Coulomb_logarithm gh T_par T_perp n_i ions
                          par_speeds method = inl e)
     \/ (exists T_par T_perp n_i ions par_speeds perp_speeds method,
           Hellinger_2016 Coulomb_logarithm hyper2d T_par T_perp n_i ions
                          par_speeds perp_speeds method = inl e)) ->
    validation_error e = true
    /\ e <> ValueError ZeroTemperature
    /\ e <> TypeError ScalarIndex
    /\ e <> TypeError MissingArgument.
Proof.
  intros e H.
  assert (Hv : validation_error e = true).
  { destruct H as [H | [H | H]].
    - destruct H as [T [n_i [ions [ps [m H]]]]].
      destruct (Hellinger_2009_outcome T n_i ions ps m) as [e' [He Hv]].
      rewrite He in H. injection H as <-. exact Hv.
    - destruct H as [T1 [T2 [n_i [ions [ps [m H]]]]]].
      destruct (Hellinger_2010_outcome T1 T2 n_i ions ps m) as [e' [He Hv]].
      rewrite He in H. injection H as <-. exact Hv.
    - destruct H as [T1 [T2 [n_i [ions [ps [pps [m H]]]]]]].
      destruct (Hellinger_2016_outcome T1 T2 n_i ions ps pps m) as [e' [He Hv]].
      rewrite He in H. injection H as <-. exact Hv. }
  split; [exact Hv|].
  repeat split; intros ->; discriminate.
Qed.

(** X20.  With arguments that all pass their validation, each of the
    three functions ends in the [TypeError] of [isinstance(method, None)]:
    [Hellinger_2016] at its own check of [method], [Hellinger_2010]
    inside [Hellinger_2009], after the arguments have been validated a
    second time. *)
Theorem valid_arguments_end_in_the_isinstance_error :
  forall (T_par T_perp : Quantity) (n_i : argument) (ions : ions_arg)
         (par_speeds perp_speeds : list R) (method : pyobj)
         (T_par' T_perp' n_i' : Quantity) (ions' : list Particle),
    validate.temp T_par = inr T_par' ->
    validate.temp T_perp = inr T_perp' ->
    validate.n_i n_i = inr n_i' ->
    validate.ions ions = inr ions' ->
    length par_speeds = 2%nat ->
    length perp_speeds = 2%nat ->
    Hellinger_2009 Coulomb_logarithm T_par n_i ions par_speeds method
    = inl (TypeError IsinstanceArg2)
    /\ Hellinger_2010 Coulomb_logarithm gh T_par T_perp n_i ions par_speeds method
       = inl (TypeError IsinstanceArg2)
    /\ Hellinger_2016 Coulomb_logarithm hyper2d T_par T_perp n_i ions
                      par_speeds perp_speeds method
       = inl (TypeError IsinstanceArg2).
Proof.
  intros T_par T_perp n_i ions par_speeds perp_speeds method T_par' T_perp' n_i' ions'
         H1 H2 H3 H4 H5 H6.
  assert (Hs : validate.speeds par_speeds = inr par_speeds).
  { unfold validate.speeds. rewrite H5. reflexivity. }
  assert (Hs' : validate.speeds perp_speeds = inr perp_speeds).
  { unfold validate.speeds. rewrite H6. reflexivity. }
  pose proof validate_n_i_again as In_i. pose proof validate_ions_again as Iions.
  split; [|split].
  - unfold Hellinger_2009. rewrite H1. cbn [bind]. rewrite H3. cbn [bind].
    rewrite H4. cbn [bind]. rewrite Hs. reflexivity.
  - unfold Hellinger_2010. rewrite H1. cbn [bind]. rewrite H2. cbn [bind].
    rewrite H3. cbn [bind]. rewrite H4. cbn [bind]. rewrite Hs. cbn [bind].
    destruct (validate_temp_scalar _ _ H1) as [_ [_ Hp1]].
    destruct (validate_temp_scalar _ _ H2) as [_ [_ Hp2]].
    destruct (Req_dec_T (q_value T_par') 0) as [E|_]; [lra|].
    unfold call_Hellinger_2009, Hellinger_2009.
    assert (HT : validate.temp (q_scalar ((2 * q_value T_perp' + q_value T_par') / 3))
                 = inr (q_scalar ((2 * q_value T_perp' + q_value T_par') / 3))).
    { unfold validate.temp. simpl.
      destruct (Rlt_dec 0 _) as [_|N]; [reflexivity|].
      exfalso. apply N. unfold q_value, item. simpl.
      unfold q_value, item in Hp1, Hp2. lra. }
    rewrite HT. cbn [bind]. rewrite (In_i n_i n_i' H3). cbn [bind].
    rewrite (Iions ions ions' H4). cbn [bind]. rewrite Hs. reflexivity.
  - unfold Hellinger_2016. rewrite H1. cbn [bind]. rewrite H2. cbn [bind].
    rewrite H3. cbn [bind]. rewrite H4. cbn [bind]. rewrite Hs. cbn [bind].
    rewrite Hs'. reflexivity.
Qed.

End TimescaleOutcomes.

Lemma validate_temp_accepts (x : R) :
  0 < x -> validate.temp (q_scalar x) = inr (q_scalar x).
Proof.
  intros Hx. unfold validate.temp. simpl.
  destruct (Rlt_dec 0 _) as [_|N]; [reflexivity|].
  exfalso. apply N. unfold q_value, item. simpl. exact Hx.
Qed.

Lemma validate_n_i_accepts (x : R) :
  0 < x -> validate.n_i (AQuantity (q_scalar x)) = inr (q_scalar x).
Proof.
  intros Hx. unfold validate.n_i. simpl.
  destruct (Rlt_dec 0 _) as [_|N]; [reflexivity|].
  exfalso. apply N. unfold q_value, item. simpl. exact Hx.
Qed.

Lemma timescale_errors_come_from_the_validators_witness :
  validation_error (ValueError Shape) = true
  /\ ValueError Shape <> ValueError ZeroTemperature
  /\ ValueError Shape <> TypeError ScalarIndex
  /\ ValueError Shape <> TypeError MissingArgument.
Proof.
  apply (timescale_errors_come_from_the_validators
           (fun _ _ _ _ => 10) (fun _ _ _ _ => 1) (fun _ _ _ _ _ => 1)
           (ValueError Shape)).
  left. exists (mk_Quantity (array [300; 400]) true), (AQuantity (q_scalar 400000)),
          example_ions, [500; 750], (PStr "classical").
  reflexivity.
Defined.

Lemma valid_arguments_end_in_the_isinstance_error_witness :
  Hellinger_2009 (fun _ _ _ _ => 10) (q_scalar 1000000) (AQuantity (q_scalar 400000))
                 example_ions [500; 750] (PStr "classical")
  = inl (TypeError IsinstanceArg2)
  /\ Hellinger_2010 (fun _ _ _ _ => 10) (fun _ _ _ _ => 1)
                    (q_scalar 1000000) (q_scalar 2000000) (AQuantity (q_scalar 400000))
                    example_ions [500; 750] (PStr "classical")
     = inl (TypeError IsinstanceArg2)
  /\ Hellinger_2016 (fun _ _ _ _ => 10) (fun _ _ _ _ _ => 1)
                    (q_scalar 1000000) (q_scalar 2000000) (AQuantity (q_scalar 400000))
                    example_ions [500; 750] [600; 800] (PStr "classical")
     = inl (TypeError IsinstanceArg2).
Proof.
  apply (valid_arguments_end_in_the_isinstance_error
           (fun _ _ _ _ => 10) (fun _ _ _ _ => 1) (fun _ _ _ _ _ => 1)
           (q_scalar 1000000) (q_scalar 2000000) (AQuantity (q_scalar 400000))
           example_ions [500; 750] [600; 800] (PStr "classical")
           (q_scalar 1000000) (q_scalar 2000000) (q_scalar 400000)
           [H_plus; He_plus]).
  - apply validate_temp_accepts. lra.
  - apply validate_temp_accepts. lra.
  - apply validate_n_i_accepts. lra.
  - reflexivity.
  - reflexivity.
  - reflexivity.
Defined.

(** ** The dispatcher *)

Section DispatcherProperties.

Variable Coulomb_logarithm : Quantity -> Quantity -> list Particle -> pyobj -> R.
Variable gh : R -> R -> R -> R -> R.
Variable hyper2d : R -> R -> R -> R -> R -> R.

Lemma call_with_keywords_fails (f : Hellinger_function) (inputs : keyword_arguments) :
  exists e, call_with_keywords Coulomb_logarithm gh hyper2d f inputs = inl e.
Proof.
  destruct f, inputs; simpl; try (eexists; reflexivity).
  - destruct (Hellinger_2009_outcome Coulomb_logarithm T n_i ions par_speeds method)
      as [e [He _]].
    rewrite He. eexists. reflexivity.
  - destruct (Hellinger_2010_outcome Coulomb_logarithm gh T_par T_perp n_i ions
                                     par_speeds method) as [e [He _]].
    rewrite He. eexists. reflexivity.
  - destruct (Hellinger_2016_outcome Coulomb_logarithm hyper2d T_par T_perp n_i ions
                                     par_speeds perp_speeds method) as [e [He _]].
    rewrite He. eexists. reflexivity.
Qed.

(** X21.  [Hellinger] never returns a timescale.  A version that is
    neither an int nor a float ends it with the type error, a number other
    than 2009, 2010 and 2016 with the value error, both before [inputs] is
    looked at; a float version selects the function of the equal int; and
    a valid version whose function does not have the keys of [inputs] as
    its parameters ends it with the keyword error. *)
Theorem Hellinger_never_returns :
  forall (inputs : keyword_arguments) (version : pyobj),
    (exists e, Hellinger Coulomb_logarithm gh hyper2d inputs version = inl e)
    /\ (version_number version = None ->
        Hellinger Coulomb_logarithm gh hyper2d inputs version = inl version_TypeError)
    /\ (forall v, version_number version = Some v ->
                  v <> 2009 -> v <> 2010 -> v <> 2016 ->
                  Hellinger Coulomb_logarithm gh hyper2d inputs version
                  = inl version_ValueError)
    /\ (forall z, Hellinger Coulomb_logarithm gh hyper2d inputs (PFloat (IZR z))
                  = Hellinger Coulomb_logarithm gh hyper2d inputs (PInt z))
    /\ (forall v f, version_number version = Some v ->
                    (v = 2009 /\ f = F_2009 \/ v = 2010 /\ f = F_2010
                     \/ v = 2016 /\ f = F_2016) ->
                    Hellinger Coulomb_logarithm gh hyper2d inputs version
                    = call_with_keywords Coulomb_logarithm gh hyper2d f inputs)
    /\ Hellinger Coulomb_logarithm gh hyper2d other_keys (PInt 2009)
       = inl keyword_TypeError.
Proof.
  intros inputs version.
  assert (Hsel : forall v f, version_number version = Some v ->
                   (v = 2009 /\ f = F_2009 \/ v = 2010 /\ f = F_2010
                    \/ v = 2016 /\ f = F_2016) ->
                   Hellinger Coulomb_logarithm gh hyper2d inputs version
                   = call_with_keywords Coulomb_logarithm gh hyper2d f inputs).
  { intros v f Hv Hf. unfold Hellinger. rewrite Hv.
    unfold valid_versions, list_index.
    destruct Hf as [[-> ->] | [[-> ->] | [-> ->]]].
    - destruct (Req_dec_T 2009 2009) as [_|N]; [reflexivity | contradiction].
    - destruct (Req_dec_T 2009 2010) as [E|_]; [lra|].
      destruct (Req_dec_T 2010 2010) as [_|N]; [reflexivity | contradiction].
    - destruct (Req_dec_T 2009 2016) as [E|_]; [lra|].
      destruct (Req_dec_T 2010 2016) as [E|_]; [lra|].
      destruct (Req_dec_T 2016 2016) as [_|N]; [reflexivity | contradiction]. }
  assert (Hbad : forall v, version_number version = Some v ->
                   v <> 2009 -> v <> 2010 -> v <> 2016 ->
                   Hellinger Coulomb_logarithm gh hyper2d inputs version
                   = inl version_ValueError).
  { intros v Hv H9 H10 H16. unfold Hellinger. rewrite Hv.
    unfold valid_versions, list_index.
    destruct (Req_dec_T 2009 v) as [E|_]; [exfalso; auto|].
    destruct (Req_dec_T 2010 v) as [E|_]; [exfalso; auto|].
    destruct (Req_dec_T 2016 v) as [E|_]; [exfalso; auto|]. reflexivity. }
  split; [|split; [|split; [|split; [|split]]]].
  - destruct (version_number version) as [v|] eqn:Hv.
    + destruct (Req_dec_T v 2009) as [E9|N9];
        [rewrite (Hsel v F_2009 eq_refl) by auto; apply call_with_keywords_fails|].
      destruct (Req_dec_T v 2010) as [E10|N10];
        [rewrite (Hsel v F_2010 eq_refl) by auto; apply call_with_keywords_fails|].
      destruct (Req_dec_T v 2016) as [E16|N16];
        [rewrite (Hsel v F_2016 eq_refl) by auto; apply call_with_keywords_fails|].
      rewrite (Hbad v eq_refl N9 N10 N16). eexists. reflexivity.
    + unfold Hellinger. rewrite Hv. eexists. reflexivity.
  - intros Hv. unfold Hellinger. rewrite Hv. reflexivity.
  - exact Hbad.
  - intros z. reflexivity.
  - exact Hsel.
  - unfold Hellinger. simpl.
    destruct (Req_dec_T 2009 2009) as [_|N]; [reflexivity | contradiction].
Qed.

End DispatcherProperties.

Lemma Hellinger_never_returns_witness :
  Hellinger (fun _ _ _ _ => 10) (fun _ _ _ _ => 1) (fun _ _ _ _ _ => 1)
            other_keys (PStr "2009")
  = inl version_TypeError
  /\ Hellinger (fun _ _ _ _ => 10) (fun _ _ _ _ => 1) (fun _ _ _ _ _ => 1)
               other_keys (PInt 2011)
     = inl version_ValueError.
Proof.
  split.
  - apply (Hellinger_never_returns (fun _ _ _ _ => 10) (fun _ _ _ _ => 1)
             (fun _ _ _ _ _ => 1) other_keys (PStr "2009")).
    reflexivity.
  - apply (proj1 (proj2 (proj2 (Hellinger_never_returns (fun _ _ _ _ => 10)
             (fun _ _ _ _ => 1) (fun _ _ _ _ _ => 1) other_keys (PInt 2011))))
             2011 eq_refl); lra.
Defined.
